(** * Dataset validation scripts: a shallow embedding

    The validation sections of [scripts/split_parquet.py] (a realigned
    dataset against its source, episode order kept) and of
    [scripts/split_parquet_and_shuffle.py] (a shuffled dataset against its
    source) as executable Rocq definitions, and the properties of the
    consistency checks they perform.

    Python integers are [Z], dictionaries are [gmap], sequences are lists
    indexed the way Python indexes them, tensors carry a shape and rational
    entries.  A Python statement is a computation that prints lines and then
    either returns a value or raises an exception. *)

From stdpp Require Import base option list gmap strings sorting.
From Stdlib Require Import ZArith QArith Qabs Qminmax Lia.

Set Warnings "-clear-no-such-hyp".

Open Scope Z_scope.

(** ** Exceptions and printed lines *)

(** The message of a failed [assert], with the values its f-string
    interpolates. *)
Inductive message :=
| Episode_count_mismatch
| Frame_count_mismatch
| Task_count_mismatch
| FPS_mismatch
| Episode_length_mismatch (ep_idx orig_len aligned_len : Z)
| Episode_tasks_mismatch (ep_idx : Z)
| Frame_action_mismatch (idx : Z)
| Frame_episode_index_mismatch (idx : Z)
| Video_invalid_shape (video_key : string)
| Video_invalid_pixel_range (video_key : string)
| Data_ne_video (ep_idx : Z) (data video : Z * Z)
| Data_ne_meta (ep_idx : Z) (data meta : Z * Z)
| Task_distribution_changed
| Episode_lengths_sorted_mismatch
| No_matching_data (new_idx : Z)
| Episodes_not_shuffled.

(** The subclasses of Python's [Exception] the scripts can meet. *)
Inductive exception :=
| AssertionError (msg : message)
| IndexError
| KeyError (key : string)
| RuntimeError
| DatasetAccessError.

(** The lines the validation sections print. *)
Inductive line :=
| Metadata_counts_match
| Episode_lengths_match
| Episode_tasks_match
| Sample_frame_data_matches
| Video_frames_decode_correctly
| Files_are_aligned
| All_validation_checks_passed
| Task_distribution_preserved
| Episode_lengths_match_sorted
| Frame_data_integrity_verified
| Episode_order_is_different
| Warn_all_episodes_have_same_task
| Warn_too_few_episodes.

#[global] Instance message_eq_dec : EqDecision message.
Proof. solve_decision. Defined.
#[global] Instance exception_eq_dec : EqDecision exception.
Proof. solve_decision. Defined.
#[global] Instance line_eq_dec : EqDecision line.
Proof. solve_decision. Defined.

(** ** The computation monad: printed lines, then a value or an exception *)

Definition M (A : Type) : Type := (list line * (exception + A))%type.

Definition raise {A} (e : exception) : M A := ([], inl e).
Definition print (l : line) : M unit := ([l], inr tt).

#[global] Instance M_ret : MRet M := fun A a => ([], inr a).
#[global] Instance M_bind : MBind M := fun A B f m =>
  match m with
  | (out, inl e) => (out, inl e)
  | (out, inr a) => let '(out', r) := f a in (out ++ out', r)
  end.

(** [assert cond, msg] *)
Definition assert (cond : bool) (msg : message) : M unit :=
  if cond then mret tt else raise (AssertionError msg).

(** [try: body / except Exception: handler]; every [exception] above derives
    from [Exception]. *)
Definition try_except {A} (body : M A) (handler : M A) : M A :=
  match body with
  | (out, inl _) => let '(out', r) := handler in (out ++ out', r)
  | (out, inr a) => (out, inr a)
  end.

(** [for x in xs: body x] without [break]. *)
Fixpoint for_ {A} (xs : list A) (body : A → M unit) : M unit :=
  match xs with
  | [] => mret tt
  | x :: xs' => body x ;; for_ xs' body
  end.

(** A list comprehension [[f x for x in xs]]. *)
Fixpoint comprehension {A B} (xs : list A) (f : A → M B) : M (list B) :=
  match xs with
  | [] => mret []
  | x :: xs' => y ← f x; ys ← comprehension xs' f; mret (y :: ys)
  end.

Definition printed {A} (m : M A) : list line := m.1.
Definition outcome {A} (m : M A) : exception + A := m.2.
Definition passes (m : M unit) : Prop := outcome m = inr tt.
Definition fails_with {A} (m : M A) (e : exception) : Prop := outcome m = inl e.

(** ** Python sequences *)

(** [range(start, stop)] *)
Definition range2 (start stop : Z) : list Z :=
  (λ k : nat, start + Z.of_nat k) <$> seq 0 (Z.to_nat (stop - start)).

(** [range(stop)] *)
Definition range (stop : Z) : list Z := range2 0 stop.

(** [l[i]]: a negative index counts from the end, an index outside
    [-len(l) .. len(l) - 1] raises [IndexError]. *)
Definition getitem {A} (l : list A) (i : Z) : M A :=
  let n := Z.of_nat (length l) in
  let j := if bool_decide (i < 0) then i + n else i in
  if bool_decide (0 ≤ j < n)
  then match l !! Z.to_nat j with
       | Some x => mret x
       | None => raise IndexError
       end
  else raise IndexError.

(** [d[key]] on a dictionary with string keys. *)
Definition dict_getitem {A} (d : gmap string A) (key : string) : M A :=
  match d !! key with
  | Some x => mret x
  | None => raise (KeyError key)
  end.

(** [ep[f"videos/{video_key}/{field}"]] on an episode record, whose video
    entries are held per video key; a missing entry raises [KeyError] with
    the full entry name. *)
Definition video_entry (d : gmap string Z) (video_key field : string) : M Z :=
  match d !! video_key with
  | Some x => mret x
  | None => raise (KeyError ("videos/" +:+ video_key +:+ "/" +:+ field))
  end.

(** ** Tensors *)

Record Tensor := { shape : list nat; data : list Q }.

Definition dim (t : Tensor) : nat := length (shape t).

(** [t.min()] and [t.max()]; both raise on a tensor without elements. *)
Definition tensor_min (t : Tensor) : M Q :=
  match data t with
  | [] => raise RuntimeError
  | x :: xs => mret (foldr Qmin x xs)
  end.

Definition tensor_max (t : Tensor) : M Q :=
  match data t with
  | [] => raise RuntimeError
  | x :: xs => mret (foldr Qmax x xs)
  end.

(** [torch.stack(ts)]: a new leading dimension; raises on an empty list and
    on tensors of different shapes. *)
Definition stack (ts : list Tensor) : M Tensor :=
  match ts with
  | [] => raise RuntimeError
  | t :: _ =>
      if forallb (λ u, bool_decide (shape u = shape t)) ts
      then mret {| shape := length ts :: shape t; data := concat (data <$> ts) |}
      else raise RuntimeError
  end.

(** ** The dataset model *)

Module EpisodeRecord.
(** One row of [meta.episodes]; the two [videos_*] dictionaries hold the
    entries [videos/<video_key>/chunk_index] and
    [videos/<video_key>/file_index]. *)
Record t := {
  length : Z;
  tasks : list string;
  dataset_from_index : Z;
  dataset_to_index : Z;
  data_chunk_index : Z;
  data_file_index : Z;
  videos_chunk_index : gmap string Z;
  videos_file_index : gmap string Z;
  meta_episodes_chunk_index : Z;
  meta_episodes_file_index : Z
}.
End EpisodeRecord.

Record Frame := {
  action : Tensor;
  episode_index : Z;
  images : gmap string Tensor
}.

Record DatasetMeta := {
  total_episodes : Z;
  total_frames : Z;
  total_tasks : Z;
  fps : Z;
  video_keys : list string;
  episodes : list EpisodeRecord.t
}.

(** A dataset handle: its metadata and [ds[i]], which the dataset library
    answers with a frame or an exception. *)
Record LeRobotDataset := {
  meta : DatasetMeta;
  frame_at : Z → M Frame
}.

(** The (chunk_index, file_index) pair of each of the three streams of an
    episode; the video pair exists when both entries of the key do. *)
Definition data_pair (ep : EpisodeRecord.t) : Z * Z :=
  (EpisodeRecord.data_chunk_index ep, EpisodeRecord.data_file_index ep).

Definition meta_pair (ep : EpisodeRecord.t) : Z * Z :=
  (EpisodeRecord.meta_episodes_chunk_index ep,
   EpisodeRecord.meta_episodes_file_index ep).

Definition video_pair (ep : EpisodeRecord.t) (video_key : string) : option (Z * Z) :=
  video_chunk ← EpisodeRecord.videos_chunk_index ep !! video_key;
  video_file ← EpisodeRecord.videos_file_index ep !! video_key;
  Some (video_chunk, video_file).

(** The entry name a [KeyError] of the alignment check carries: the chunk
    index is read first. *)
Definition missing_video_entry (ep : EpisodeRecord.t) (video_key : string) : string :=
  match EpisodeRecord.videos_chunk_index ep !! video_key with
  | None => "videos/" +:+ video_key +:+ "/chunk_index"
  | Some _ => "videos/" +:+ video_key +:+ "/file_index"
  end.

(** ** The validation sections

    [torch.allclose(input, other, atol=atol)] belongs to the tensor library;
    the scripts are embedded over whatever it computes. *)

Section Validation.

Variable allclose : Q → Tensor → Tensor → M bool.

(** The tolerance both scripts pass, [atol=1e-5]. *)
Definition atol : Q := (1 # 100000)%Q.

(** *** Checks the two scripts share *)

(** [# 1. Basic metadata counts] *)
Definition metadata_counts (dataset candidate : LeRobotDataset) : M unit :=
  assert (bool_decide (total_episodes (meta candidate) = total_episodes (meta dataset)))
         Episode_count_mismatch ;;
  assert (bool_decide (total_frames (meta candidate) = total_frames (meta dataset)))
         Frame_count_mismatch ;;
  assert (bool_decide (total_tasks (meta candidate) = total_tasks (meta dataset)))
         Task_count_mismatch ;;
  assert (bool_decide (fps (meta candidate) = fps (meta dataset))) FPS_mismatch ;;
  print Metadata_counts_match.

(** [img.dim() == 3 and img.shape[0] == 3]; the first conjunct guards the
    access to [shape[0]]. *)
Definition valid_shape (img : Tensor) : bool :=
  bool_decide (dim img = 3%nat) && bool_decide (nth 0 (shape img) 0%nat = 3%nat).

(** [img.min() >= 0 and img.max() <= 1] *)
Definition valid_pixel_range (img : Tensor) : M bool :=
  lo ← tensor_min img;
  if Qle_bool 0 lo
  then hi ← tensor_max img; mret (Qle_bool hi 1)
  else mret false.

(** The body of the loop of [# 5. Video frames load correctly]. *)
Definition video_frame (candidate : LeRobotDataset) (video_key : string) : M unit :=
  frame ← frame_at candidate 0;
  img ← dict_getitem (images frame) video_key;
  assert (valid_shape img) (Video_invalid_shape video_key) ;;
  ok ← valid_pixel_range img;
  assert ok (Video_invalid_pixel_range video_key).

(** [# 5. Video frames load correctly] *)
Definition video_frames (candidate : LeRobotDataset) : M unit :=
  for_ (video_keys (meta candidate)) (video_frame candidate) ;;
  print Video_frames_decode_correctly.

(** The body of the loop of [# 6. File alignment check]. *)
Definition file_alignment_episode (candidate : LeRobotDataset)
    (first_video_key : string) (ep_idx : Z) : M unit :=
  ep ← getitem (episodes (meta candidate)) ep_idx;
  let data_chunk := EpisodeRecord.data_chunk_index ep in
  let data_file := EpisodeRecord.data_file_index ep in
  video_chunk ← video_entry (EpisodeRecord.videos_chunk_index ep)
                            first_video_key "chunk_index";
  video_file ← video_entry (EpisodeRecord.videos_file_index ep)
                           first_video_key "file_index";
  let meta_chunk := EpisodeRecord.meta_episodes_chunk_index ep in
  let meta_file := EpisodeRecord.meta_episodes_file_index ep in
  assert (bool_decide ((data_chunk, data_file) = (video_chunk, video_file)))
         (Data_ne_video ep_idx (data_chunk, data_file) (video_chunk, video_file)) ;;
  assert (bool_decide ((data_chunk, data_file) = (meta_chunk, meta_file)))
         (Data_ne_meta ep_idx (data_chunk, data_file) (meta_chunk, meta_file)).

(** [# 6. File alignment check] *)
Definition file_alignment (candidate : LeRobotDataset) : M unit :=
  first_video_key ← getitem (video_keys (meta candidate)) 0;
  for_ (range (Z.min 20 (total_episodes (meta candidate))))
       (file_alignment_episode candidate first_video_key) ;;
  print Files_are_aligned.

(** *** [split_parquet.py]: the realigned dataset keeps the episode order *)

(** [# 2. Episode lengths match in same order (no shuffle)] *)
Definition episode_lengths (dataset aligned : LeRobotDataset) : M unit :=
  for_ (range (Z.min 10 (total_episodes (meta dataset)))) (λ ep_idx,
    orig ← getitem (episodes (meta dataset)) ep_idx;
    let orig_len := EpisodeRecord.length orig in
    al ← getitem (episodes (meta aligned)) ep_idx;
    let aligned_len := EpisodeRecord.length al in
    assert (bool_decide (orig_len = aligned_len))
           (Episode_length_mismatch ep_idx orig_len aligned_len)) ;;
  print Episode_lengths_match.

(** [# 3. Tasks preserved in same order] *)
Definition episode_tasks (dataset aligned : LeRobotDataset) : M unit :=
  for_ (range (Z.min 10 (total_episodes (meta dataset)))) (λ ep_idx,
    orig ← getitem (episodes (meta dataset)) ep_idx;
    let orig_tasks := EpisodeRecord.tasks orig in
    al ← getitem (episodes (meta aligned)) ep_idx;
    let aligned_tasks := EpisodeRecord.tasks al in
    assert (bool_decide (orig_tasks = aligned_tasks))
           (Episode_tasks_mismatch ep_idx)) ;;
  print Episode_tasks_match.

(** Checks 2 and 3 in sequence: the episodes of the two datasets, compared
    position by position. *)
Definition episode_equivalence (dataset aligned : LeRobotDataset) : M unit :=
  episode_lengths dataset aligned ;; episode_tasks dataset aligned.

Definition num_samples : nat := 5.

Definition sample_indices (dataset : LeRobotDataset) : list Z :=
  let n := total_frames (meta dataset) in
  [0; n `div` 4; n `div` 2; (3 * n) `div` 4; n - 1].

(** The body of the loop of [# 4. Sample frame data integrity]. *)
Definition sample_frame (dataset aligned : LeRobotDataset) (idx : Z) : M unit :=
  orig_frame ← frame_at dataset idx;
  aligned_frame ← frame_at aligned idx;
  close ← allclose atol (action orig_frame) (action aligned_frame);
  assert close (Frame_action_mismatch idx) ;;
  assert (bool_decide (episode_index orig_frame = episode_index aligned_frame))
         (Frame_episode_index_mismatch idx).

(** [# 4. Sample frame data integrity] *)
Definition sample_frames (dataset aligned : LeRobotDataset) : M unit :=
  for_ (take num_samples (sample_indices dataset)) (sample_frame dataset aligned) ;;
  print Sample_frame_data_matches.

(** The stages of the validation section, in the order the script runs
    them. *)
Definition split_parquet_stages (dataset aligned : LeRobotDataset) : list (M unit) :=
  [ metadata_counts dataset aligned;
    episode_lengths dataset aligned;
    episode_tasks dataset aligned;
    sample_frames dataset aligned;
    video_frames aligned;
    file_alignment aligned ].

(** Statements in sequence: the first exception ends the run. *)
Fixpoint run (stages : list (M unit)) : M unit :=
  match stages with
  | [] => mret tt
  | s :: rest => s ;; run rest
  end.

(** Lines 33 to 95 of [split_parquet.py]. *)
Definition split_parquet_validation (dataset aligned : LeRobotDataset) : M unit :=
  run (split_parquet_stages dataset aligned) ;;
  print All_validation_checks_passed.

(** *** [split_parquet_and_shuffle.py]: the shuffled dataset *)

(** [c[key] += 1] on a [Counter]. *)
Definition counter_incr (key : list string) (c : gmap (list string) nat)
    : gmap (list string) nat :=
  <[key := S (default 0%nat (c !! key))]> c.

(** The loop of [# 2. Task distribution preserved], threading both
    counters. *)
Fixpoint count_tasks (dataset shuffled : LeRobotDataset) (ep_idxs : list Z)
    (counters : gmap (list string) nat * gmap (list string) nat)
    : M (gmap (list string) nat * gmap (list string) nat) :=
  match ep_idxs with
  | [] => mret counters
  | ep_idx :: rest =>
      orig ← getitem (episodes (meta dataset)) ep_idx;
      let original_tasks := counter_incr (EpisodeRecord.tasks orig) counters.1 in
      shuf ← getitem (episodes (meta shuffled)) ep_idx;
      let shuffled_tasks := counter_incr (EpisodeRecord.tasks shuf) counters.2 in
      count_tasks dataset shuffled rest (original_tasks, shuffled_tasks)
  end.

(** [# 2. Task distribution preserved] *)
Definition task_distribution (dataset shuffled : LeRobotDataset) : M unit :=
  counters ← count_tasks dataset shuffled
                (range (total_episodes (meta dataset))) (∅, ∅);
  assert (bool_decide (counters.1 = counters.2)) Task_distribution_changed ;;
  print Task_distribution_preserved.

(** [# 3. Episode lengths match (same lengths, just reordered)] *)
Definition sorted_lengths (dataset shuffled : LeRobotDataset) : M unit :=
  let original_lengths :=
    merge_sort Z.le (EpisodeRecord.length <$> episodes (meta dataset)) in
  let shuffled_lengths :=
    merge_sort Z.le (EpisodeRecord.length <$> episodes (meta shuffled)) in
  assert (bool_decide (original_lengths = shuffled_lengths))
         Episode_lengths_sorted_mismatch ;;
  print Episode_lengths_match_sorted.

(** [get_episode_actions(ds, ep_idx)]: the stacked [action] vectors of the
    first 10 frames of the episode. *)
Definition get_episode_actions (ds : LeRobotDataset) (ep_idx : Z) : M Tensor :=
  ep ← getitem (episodes (meta ds)) ep_idx;
  let start := EpisodeRecord.dataset_from_index ep in
  let end_ := EpisodeRecord.dataset_to_index ep in
  actions ← comprehension (range2 start (Z.min (start + 10) end_)) (λ i,
    frame ← frame_at ds i;
    mret (action frame));
  stack actions.

(** The [try] block of the search: does the reference episode [old_idx]
    match? *)
Definition matches (dataset : LeRobotDataset) (shuffled_actions : Tensor)
    (old_idx : Z) : M bool :=
  original_actions ← get_episode_actions dataset old_idx;
  if bool_decide (shape shuffled_actions = shape original_actions)
  then allclose atol shuffled_actions original_actions
  else mret false.

(** [for old_idx in ...: try: ... found_match = True; break / except
    Exception: continue]; the value is [found_match] after the loop. *)
Fixpoint find_match (dataset : LeRobotDataset) (shuffled_actions : Tensor)
    (old_idxs : list Z) : M bool :=
  match old_idxs with
  | [] => mret false
  | old_idx :: rest =>
      found ← try_except (matches dataset shuffled_actions old_idx) (mret false);
      if found : bool then mret true
      else find_match dataset shuffled_actions rest
  end.

Definition check_indices (shuffled : LeRobotDataset) : list Z :=
  let n := total_episodes (meta shuffled) in
  [0; n `div` 2; n - 1].

(** The body of the outer loop of [# 4. Frame data integrity]. *)
Definition check_episode (dataset shuffled : LeRobotDataset) (new_idx : Z) : M unit :=
  shuffled_actions ← get_episode_actions shuffled new_idx;
  found_match ← find_match dataset shuffled_actions
                   (range (total_episodes (meta dataset)));
  assert found_match (No_matching_data new_idx).

(** [# 4. Frame data integrity - verify shuffled episodes exist in original] *)
Definition frame_integrity (dataset shuffled : LeRobotDataset) : M unit :=
  for_ (take 3 (check_indices shuffled)) (check_episode dataset shuffled) ;;
  print Frame_data_integrity_verified.

(** [[tuple(ds.meta.episodes[i]["tasks"]) for i in range(n)]] *)
Definition first_tasks (ds : LeRobotDataset) (n : Z) : M (list (list string)) :=
  comprehension (range n) (λ i,
    ep ← getitem (episodes (meta ds)) i;
    mret (EpisodeRecord.tasks ep)).

(** [# 7. Actually shuffled - verify episode order changed] *)
Definition order_changed (dataset shuffled : LeRobotDataset) : M unit :=
  if bool_decide (5 ≤ total_episodes (meta dataset)) then
    let n_compare := Z.min 10 (total_episodes (meta dataset)) in
    original_first_tasks ← first_tasks dataset n_compare;
    shuffled_first_tasks ← first_tasks shuffled n_compare;
    if bool_decide (1 < size (list_to_set original_first_tasks : gset (list string)))%nat
    then
      assert (bool_decide (original_first_tasks ≠ shuffled_first_tasks))
             Episodes_not_shuffled ;;
      print Episode_order_is_different
    else print Warn_all_episodes_have_same_task
  else print Warn_too_few_episodes.

Definition split_parquet_and_shuffle_stages (dataset shuffled : LeRobotDataset)
    : list (M unit) :=
  [ metadata_counts dataset shuffled;
    task_distribution dataset shuffled;
    sorted_lengths dataset shuffled;
    frame_integrity dataset shuffled;
    video_frames shuffled;
    file_alignment shuffled;
    order_changed dataset shuffled ].

(** Lines 34 to 125 of [split_parquet_and_shuffle.py]. *)
Definition split_parquet_and_shuffle_validation (dataset shuffled : LeRobotDataset)
    : M unit :=
  run (split_parquet_and_shuffle_stages dataset shuffled) ;;
  print All_validation_checks_passed.

End Validation.

(** ** A reference instance of the tensor library's closeness test

    [torch.allclose(input, other, rtol, atol)] on tensors of one shape, with
    exact arithmetic: every entry satisfies
    [|input - other| <= atol + rtol * |other|].  The scripts leave [rtol] at
    the library's default, [1e-5].  Tensors of different shapes are not
    compared entry by entry; this instance raises on them. *)
Definition torch_allclose (rtol atol : Q) (input other : Tensor) : M bool :=
  if bool_decide (shape input = shape other)
  then mret (forallb (λ p : Q * Q,
                 Qle_bool (Qabs (p.1 - p.2)) (atol + rtol * Qabs p.2))
               (zip (data input) (data other)))
  else raise RuntimeError.

Definition default_allclose : Q → Tensor → Tensor → M bool :=
  torch_allclose (1 # 100000)%Q.

(** ** Small datasets to run the scripts on *)

Module Examples.

(** An episode of [len] frames starting at [from], stored in the files
    [data], [video] (under the key [cam]) and [meta_ep]. *)
Definition episode (len : Z) (tasks : list string) (from : Z)
    (data video meta_ep : Z * Z) : EpisodeRecord.t :=
  {| EpisodeRecord.length := len;
     EpisodeRecord.tasks := tasks;
     EpisodeRecord.dataset_from_index := from;
     EpisodeRecord.dataset_to_index := from + len;
     EpisodeRecord.data_chunk_index := data.1;
     EpisodeRecord.data_file_index := data.2;
     EpisodeRecord.videos_chunk_index := {[ "cam" := video.1 ]};
     EpisodeRecord.videos_file_index := {[ "cam" := video.2 ]};
     EpisodeRecord.meta_episodes_chunk_index := meta_ep.1;
     EpisodeRecord.meta_episodes_file_index := meta_ep.2 |}.

Definition vector (xs : list Q) : Tensor :=
  {| shape := [length xs]; data := xs |}.

(** A 3 x 1 x 2 image with the given pixel values. *)
Definition image (xs : list Q) : Tensor :=
  {| shape := [3; 1; 2]%nat; data := xs |}.

Definition unit_image : Tensor :=
  image [0; 1 # 2; 1; 1 # 4; 0; 1]%Q.

Definition byte_image : Tensor :=
  image [0; 128; 255; 64; 0; 255]%Q.

Definition frame (ep : Z) (act : list Q) (img : Tensor) : Frame :=
  {| action := vector act; episode_index := ep; images := {[ "cam" := img ]} |}.

(** A dataset held in memory: [ds[i]] indexes the list of frames. *)
Definition in_memory (eps : list EpisodeRecord.t) (n_tasks : Z)
    (frames : list Frame) : LeRobotDataset :=
  {| meta := {| total_episodes := Z.of_nat (length eps);
                total_frames := Z.of_nat (length frames);
                total_tasks := n_tasks;
                fps := 20;
                video_keys := ["cam"];
                episodes := eps |};
     frame_at := getitem frames |}.

(** Two episodes of two frames each, every stream in file (0, 0). *)
Definition two_frames (ep : Z) (a : Q) : list Frame :=
  [frame ep [a; 0]%Q unit_image; frame ep [a; 1]%Q unit_image].

Definition small : LeRobotDataset :=
  in_memory [episode 2 ["pick"] 0 (0, 0) (0, 0) (0, 0);
             episode 2 ["place"] 2 (0, 0) (0, 0) (0, 0)]
            2 (two_frames 0 (1 # 10) ++ two_frames 1 (2 # 10)).

(** [small] with its two episodes exchanged. *)
Definition small_swapped : LeRobotDataset :=
  in_memory [episode 2 ["place"] 0 (0, 0) (0, 0) (0, 0);
             episode 2 ["pick"] 2 (0, 0) (0, 0) (0, 0)]
            2 (two_frames 0 (2 # 10) ++ two_frames 1 (1 # 10)).

(** Eleven episodes of one frame each; [last_len] is the length recorded
    for the eleventh. *)
Definition eleven (last_len : Z) : LeRobotDataset :=
  in_memory
    (((λ i : Z, episode 1 ["pick"] i (0, 0) (0, 0) (0, 0)) <$> range 10)
       ++ [episode last_len ["pick"] 10 (0, 0) (0, 0) (0, 0)])
    1 ((λ i : Z, frame i [0]%Q unit_image) <$> range 11).

(** Three episodes; the second has its video in file (0, 1) while its data
    and metadata are in file (0, 0). *)
Definition misaligned : LeRobotDataset :=
  in_memory [episode 1 ["pick"] 0 (0, 0) (0, 0) (0, 0);
             episode 1 ["pick"] 1 (0, 0) (0, 1) (0, 0);
             episode 1 ["pick"] 2 (0, 0) (0, 0) (0, 0)]
            1 ((λ i : Z, frame i [0]%Q unit_image) <$> range 3).

(** One episode of one frame whose image holds byte values. *)
Definition byte_valued : LeRobotDataset :=
  in_memory [episode 1 ["pick"] 0 (0, 0) (0, 0) (0, 0)]
            1 [frame 0 [0]%Q byte_image].

(** [small] behind a storage that cannot deliver frame 0. *)
Definition flaky : LeRobotDataset :=
  {| meta := meta small;
     frame_at := λ i, if bool_decide (i = 0) then raise DatasetAccessError
                      else frame_at small i |}.

(** One episode of one frame for each entry of [ts], with those tasks. *)
Definition tasked (ts : list (list string)) : LeRobotDataset :=
  in_memory
    ((λ p : Z * list string, episode 1 p.2 p.1 (0, 0) (0, 0) (0, 0))
       <$> zip (range (Z.of_nat (length ts))) ts)
    2 ((λ i : Z, frame i [0]%Q unit_image) <$> range (Z.of_nat (length ts))).

Definition six_alternating : LeRobotDataset :=
  tasked [["pick"]; ["place"]; ["pick"]; ["place"]; ["pick"]; ["place"]].

Definition six_reordered : LeRobotDataset :=
  tasked [["place"]; ["pick"]; ["pick"]; ["place"]; ["place"]; ["pick"]].

(** [small] with the first action entry of every frame moved by 0.001. *)
Definition small_perturbed : LeRobotDataset :=
  in_memory (episodes (meta small)) 2
            (two_frames 0 (101 # 1000) ++ two_frames 1 (201 # 1000)).

(** [small] without its second episode record, the counts unchanged. *)
Definition small_truncated : LeRobotDataset :=
  {| meta := {| total_episodes := 2; total_frames := 4; total_tasks := 2;
                fps := 20; video_keys := ["cam"];
                episodes := take 1 (episodes (meta small)) |};
     frame_at := frame_at small |}.

(** [small] with [video_keys] replaced. *)
Definition small_with_keys (keys : list string) : LeRobotDataset :=
  {| meta := {| total_episodes := 2; total_frames := 4; total_tasks := 2;
                fps := 20; video_keys := keys;
                episodes := episodes (meta small) |};
     frame_at := frame_at small |}.

(** The stacked actions of the first episode of [small]. *)
Definition small_first_actions : Tensor :=
  {| shape := [2; 2]%nat; data := [1 # 10; 0; 1 # 10; 1]%Q |}.

(** One episode of one frame whose action is the single entry [a]. *)
Definition one_frame (a : Q) : LeRobotDataset :=
  in_memory [episode 1 ["pick"] 0 (0, 0) (0, 0) (0, 0)] 1 [frame 0 [a] unit_image].

(** [small] with one more frame in its metadata count. *)
Definition small_extra_frame : LeRobotDataset :=
  {| meta := {| total_episodes := 2; total_frames := 5; total_tasks := 2;
                fps := 20; video_keys := ["cam"];
                episodes := episodes (meta small) |};
     frame_at := frame_at small |}.

End Examples.

(** ** What the checks decide *)

(** The two records the episode loops read at an ordinal. *)
Definition records_at (dataset aligned : LeRobotDataset) (i : Z)
    (orig al : EpisodeRecord.t) : Prop :=
  episodes (meta dataset) !! Z.to_nat i = Some orig ∧
  episodes (meta aligned) !! Z.to_nat i = Some al.

(** The three pairs of the candidate's episode at ordinal [i]. *)
Definition streams_at (candidate : LeRobotDataset) (video_key : string) (i : Z)
    (d v m : Z * Z) : Prop :=
  ∃ ep, episodes (meta candidate) !! Z.to_nat i = Some ep ∧
        d = data_pair ep ∧ video_pair ep video_key = Some v ∧ m = meta_pair ep.

Definition in_unit_range (x : Q) : Prop := (0 <= x)%Q ∧ (x <= 1)%Q.

(** [candidate[0][video_key]] is the image [img]. *)
Definition decoded (candidate : LeRobotDataset) (video_key : string)
    (img : Tensor) : Prop :=
  ∃ frame, outcome (frame_at candidate 0) = inr frame ∧
           images frame !! video_key = Some img.

(** Three dimensions, the leading one of size 3. *)
Definition three_channels_first (img : Tensor) : Prop :=
  dim img = 3%nat ∧ nth 0 (shape img) 0%nat = 3%nat.

(** Both datasets answer at [idx], the two [action] tensors are close at
    [atol] and the two [episode_index] labels are equal. *)
Definition frames_agree (allclose : Q → Tensor → Tensor → M bool)
    (dataset aligned : LeRobotDataset) (idx : Z) : Prop :=
  ∃ orig_frame aligned_frame,
    outcome (frame_at dataset idx) = inr orig_frame ∧
    outcome (frame_at aligned idx) = inr aligned_frame ∧
    outcome (allclose atol (action orig_frame) (action aligned_frame)) = inr true ∧
    episode_index orig_frame = episode_index aligned_frame.

(** Every sampled frame of [D] can be fetched and its [action] tensor is
    close to itself. *)
Definition samples_readable (allclose : Q → Tensor → Tensor → M bool)
    (D : LeRobotDataset) : Prop :=
  ∀ idx, idx ∈ take num_samples (sample_indices D) →
    ∃ frame, outcome (frame_at D idx) = inr frame ∧
             outcome (allclose atol (action frame) (action frame)) = inr true.

(** The reference episode [old_idx] yields actions of the shape of
    [shuffled_actions] that are close to them at [atol]. *)
Definition matching_episode (allclose : Q → Tensor → Tensor → M bool)
    (dataset : LeRobotDataset) (shuffled_actions : Tensor) (old_idx : Z) : Prop :=
  ∃ original_actions,
    outcome (get_episode_actions dataset old_idx) = inr original_actions ∧
    shape shuffled_actions = shape original_actions ∧
    outcome (allclose atol shuffled_actions original_actions) = inr true.

Definition has_match (allclose : Q → Tensor → Tensor → M bool)
    (dataset : LeRobotDataset) (shuffled_actions : Tensor) : Prop :=
  ∃ old_idx, 0 ≤ old_idx < total_episodes (meta dataset) ∧
             matching_episode allclose dataset shuffled_actions old_idx.

(** The relative tolerance [torch.allclose] applies when the caller passes
    none, [rtol=1e-5]. *)
Definition rtol : Q := (1 # 100000)%Q.

(** The entries of [input] and [other], in pairs, satisfy
    [|input - other| <= abs_tol + rel_tol * |other|]. *)
Definition elementwise_close (rel_tol abs_tol : Q) (input other : Tensor) : Prop :=
  Forall (λ p : Q * Q, (Qabs (p.1 - p.2) <= abs_tol + rel_tol * Qabs p.2)%Q)
         (zip (data input) (data other)).

(** What the tensor library documents for
    [torch.allclose(input, other, atol=tol)] on two tensors of one shape: it
    returns whether the entries are close under [rtol] and [tol]. *)
Definition torch_rule (allclose : Q → Tensor → Tensor → M bool) : Prop :=
  ∀ tol input other, shape input = shape other →
    ∃ close, outcome (allclose tol input other) = inr close ∧
             (close = true ↔ elementwise_close rtol tol input other).

(** Some reference episode yields actions of the shape of
    [shuffled_actions] to which they are close under [rtol] and [atol]. *)
Definition close_match (dataset : LeRobotDataset) (shuffled_actions : Tensor) : Prop :=
  ∃ old_idx original_actions,
    0 ≤ old_idx < total_episodes (meta dataset) ∧
    outcome (get_episode_actions dataset old_idx) = inr original_actions ∧
    shape shuffled_actions = shape original_actions ∧
    elementwise_close rtol atol shuffled_actions original_actions.

(** Both datasets answer at [idx], the reference's [action] is close to the
    candidate's under [rtol] and [atol], and the [episode_index] labels are
    equal. *)
Definition frames_close (dataset aligned : LeRobotDataset) (idx : Z) : Prop :=
  ∃ orig_frame aligned_frame,
    outcome (frame_at dataset idx) = inr orig_frame ∧
    outcome (frame_at aligned idx) = inr aligned_frame ∧
    elementwise_close rtol atol (action orig_frame) (action aligned_frame) ∧
    episode_index orig_frame = episode_index aligned_frame.

(** The first [n] episode records of a dataset. *)
Definition first_records (ds : LeRobotDataset) (n : Z) : list EpisodeRecord.t :=
  take (Z.to_nat n) (episodes (meta ds)).

Definition tasks_eq_dec (x y : list string) : {x = y} + {x ≠ y} := decide (x = y).

(** A [Counter] after [c[key] += 1] for each key of a list, in order. *)
Definition tally (keys : list (list string)) (c : gmap (list string) nat)
    : gmap (list string) nat :=
  foldl (λ c key, counter_incr key c) c keys.

(** ** Facts about computations, loops and sequences *)

Section Computations.

Context {A B : Type}.

Lemma outcome_bind (m : M A) (f : A → M B) :
  outcome (m ≫= f) =
  match outcome m with inl e => inl e | inr a => outcome (f a) end.
Proof.
  destruct m as [out [e | a]]; [reflexivity |].
  unfold outcome, mbind, M_bind; simpl. by destruct (f a).
Qed.

Lemma printed_bind (m : M A) (f : A → M B) :
  printed (m ≫= f) =
  match outcome m with
  | inl _ => printed m
  | inr a => printed m ++ printed (f a)
  end.
Proof.
  destruct m as [out [e | a]]; [reflexivity |].
  unfold printed, outcome, mbind, M_bind; simpl. by destruct (f a).
Qed.

Lemma outcome_ret (a : A) : outcome (mret a : M A) = inr a.
Proof. reflexivity. Qed.

Lemma outcome_raise (e : exception) : outcome (raise e : M A) = inl e.
Proof. reflexivity. Qed.

Lemma outcome_try_except (body handler : M A) :
  outcome (try_except body handler) =
  match outcome body with inl _ => outcome handler | inr a => inr a end.
Proof.
  destruct body as [out [e | a]]; [| reflexivity].
  unfold outcome, try_except. by destruct handler.
Qed.

End Computations.

Lemma outcome_assert (cond : bool) (msg : message) :
  outcome (assert cond msg) = if cond then inr tt else inl (AssertionError msg).
Proof. by destruct cond. Qed.

Lemma outcome_print (l : line) : outcome (print l) = inr tt.
Proof. reflexivity. Qed.

Lemma passes_seq (m k : M unit) : passes (m ;; k) ↔ passes m ∧ passes k.
Proof.
  unfold passes. rewrite outcome_bind.
  destruct (outcome m) as [e | []]; intuition congruence.
Qed.

Lemma passes_then_print (m : M unit) (l : line) : passes (m ;; print l) ↔ passes m.
Proof. rewrite passes_seq. unfold passes at 2. rewrite outcome_print. intuition congruence. Qed.

Lemma fails_then_print (m : M unit) (l : line) (e : exception) :
  fails_with (m ;; print l) e ↔ fails_with m e.
Proof.
  unfold fails_with. rewrite outcome_bind, outcome_print.
  destruct (outcome m) as [e' | []]; intuition congruence.
Qed.

Lemma passes_assert (cond : bool) (msg : message) :
  passes (assert cond msg) ↔ cond = true.
Proof. unfold passes. rewrite outcome_assert. destruct cond; intuition congruence. Qed.

Lemma fails_assert (cond : bool) (msg : message) (e : exception) :
  fails_with (assert cond msg) e ↔ cond = false ∧ e = AssertionError msg.
Proof. unfold fails_with. rewrite outcome_assert. destruct cond; intuition congruence. Qed.

Section Loops.

Context {A : Type}.
Implicit Types (xs : list A) (body : A → M unit).

Lemma passes_for xs body : passes (for_ xs body) ↔ ∀ x, x ∈ xs → passes (body x).
Proof.
  induction xs as [| x xs IH]; simpl.
  - split; [intros _ x Hx; by apply elem_of_nil in Hx | done].
  - rewrite passes_seq, IH. split.
    + intros [Hx Hxs] y Hy. apply elem_of_cons in Hy as [-> | Hy]; auto.
    + intros H. split; [apply H; left | intros y Hy; apply H; by right].
Qed.

(** A loop that raises does so in the body of its first iteration that
    does not pass. *)
Lemma fails_for xs body e :
  fails_with (for_ xs body) e ↔
  ∃ pre x post, xs = pre ++ x :: post ∧
    (∀ y, y ∈ pre → passes (body y)) ∧ fails_with (body x) e.
Proof.
  induction xs as [| x xs IH]; simpl.
  - split; [discriminate |]. intros (pre & y & post & Heq & _).
    by destruct pre.
  - unfold fails_with in *. rewrite outcome_bind.
    destruct (outcome (body x)) as [e' | []] eqn:Hx.
    + split.
      * intros [= ->]. exists [], x, xs. split_and!; [done | | done].
        intros y Hy. by apply elem_of_nil in Hy.
      * intros (pre & y & post & Heq & Hpre & Hy).
        destruct pre as [| z pre]; simplify_eq/=; [congruence |].
        specialize (Hpre z (list_elem_of_here _ _)). unfold passes in Hpre. congruence.
    + rewrite IH. split.
      * intros (pre & y & post & -> & Hpre & Hy).
        exists (x :: pre), y, post. split_and!; [done | | done].
        intros z Hz. apply elem_of_cons in Hz as [-> | Hz]; [done | auto].
      * intros (pre & y & post & Heq & Hpre & Hy).
        destruct pre as [| z pre]; simplify_eq/=; [congruence |].
        exists pre, y, post. split_and!; [done | | done].
        intros w Hw. apply Hpre. by right.
Qed.

Lemma fails_for_elem xs body e :
  fails_with (for_ xs body) e → ∃ x, x ∈ xs ∧ fails_with (body x) e.
Proof.
  rewrite fails_for. intros (pre & x & post & -> & _ & Hx).
  exists x. split; [| done]. apply elem_of_app. right. left.
Qed.

End Loops.

Lemma elem_of_range2 (start stop i : Z) : i ∈ range2 start stop ↔ start ≤ i < stop.
Proof.
  unfold range2. rewrite list_elem_of_fmap. split.
  - intros (k & -> & Hk). apply elem_of_seq in Hk. lia.
  - intros H. exists (Z.to_nat (i - start)). split; [lia |].
    apply elem_of_seq. lia.
Qed.

Lemma elem_of_range (stop i : Z) : i ∈ range stop ↔ 0 ≤ i < stop.
Proof. apply elem_of_range2. Qed.

Lemma outcome_getitem {A} (l : list A) (i : Z) :
  0 ≤ i →
  outcome (getitem l i) =
  match l !! Z.to_nat i with Some x => inr x | None => inl IndexError end.
Proof.
  intros Hi. unfold getitem.
  rewrite (bool_decide_eq_false_2 (i < 0)) by lia.
  destruct (l !! Z.to_nat i) as [x |] eqn:Hl.
  - apply lookup_lt_Some in Hl. by rewrite bool_decide_eq_true_2 by lia.
  - apply lookup_ge_None in Hl. by rewrite bool_decide_eq_false_2 by lia.
Qed.

Lemma outcome_video_entry (d : gmap string Z) (video_key field : string) :
  outcome (video_entry d video_key field) =
  match d !! video_key with
  | Some x => inr x
  | None => inl (KeyError ("videos/" +:+ video_key +:+ "/" +:+ field))
  end.
Proof. unfold video_entry. by destruct (d !! video_key). Qed.

Lemma outcome_dict_getitem {A} (d : gmap string A) (key : string) :
  outcome (dict_getitem d key) =
  match d !! key with Some x => inr x | None => inl (KeyError key) end.
Proof. unfold dict_getitem. by destruct (d !! key). Qed.

(** ** The metadata check *)

Lemma passes_metadata_counts (dataset candidate : LeRobotDataset) :
  passes (metadata_counts dataset candidate) ↔
  total_episodes (meta candidate) = total_episodes (meta dataset) ∧
  total_frames (meta candidate) = total_frames (meta dataset) ∧
  total_tasks (meta candidate) = total_tasks (meta dataset) ∧
  fps (meta candidate) = fps (meta dataset).
Proof.
  unfold metadata_counts.
  rewrite !passes_seq, !passes_assert, !bool_decide_eq_true.
  unfold passes. rewrite outcome_print. intuition.
Qed.

(** C2: the metadata check passes exactly when the candidate's
    [total_episodes], [total_frames], [total_tasks] and [fps] all equal the
    reference's; a candidate with another [total_frames] makes it raise an
    assertion error of the metadata check (the episode count or the frame
    count message). *)
Theorem metadata_counts_exact (dataset candidate : LeRobotDataset) :
  (passes (metadata_counts dataset candidate) ↔
     total_episodes (meta candidate) = total_episodes (meta dataset) ∧
     total_frames (meta candidate) = total_frames (meta dataset) ∧
     total_tasks (meta candidate) = total_tasks (meta dataset) ∧
     fps (meta candidate) = fps (meta dataset)) ∧
  (total_frames (meta candidate) ≠ total_frames (meta dataset) →
     ∃ msg, fails_with (metadata_counts dataset candidate) (AssertionError msg) ∧
            msg ∈ [Episode_count_mismatch; Frame_count_mismatch]).
Proof.
  split.
  - apply passes_metadata_counts.
  - unfold metadata_counts.
    intros Hframes. unfold fails_with. rewrite !outcome_bind, !outcome_assert.
    case_bool_decide as Hep.
    + rewrite bool_decide_eq_false_2 by done.
      exists Frame_count_mismatch. split; [done |]. right. left.
    + exists Episode_count_mismatch. split; [done | left].
Qed.

Lemma metadata_counts_exact_witness :
  ∃ msg, fails_with (metadata_counts Examples.small Examples.small_extra_frame)
                    (AssertionError msg) ∧
         msg ∈ [Episode_count_mismatch; Frame_count_mismatch].
Proof.
  apply (proj2 (metadata_counts_exact Examples.small Examples.small_extra_frame)).
  vm_compute. discriminate.
Defined.

(** ** The episode checks of [split_parquet.py] *)

Section Episode_checks.

Variables dataset aligned : LeRobotDataset.

Lemma outcome_length_body (i : Z) :
  0 ≤ i →
  outcome (orig ← getitem (episodes (meta dataset)) i;
           al ← getitem (episodes (meta aligned)) i;
           assert (bool_decide (EpisodeRecord.length orig = EpisodeRecord.length al))
                  (Episode_length_mismatch i (EpisodeRecord.length orig)
                                             (EpisodeRecord.length al))) =
  match episodes (meta dataset) !! Z.to_nat i, episodes (meta aligned) !! Z.to_nat i with
  | Some orig, Some al =>
      if bool_decide (EpisodeRecord.length orig = EpisodeRecord.length al)
      then inr tt
      else inl (AssertionError (Episode_length_mismatch i (EpisodeRecord.length orig)
                                                          (EpisodeRecord.length al)))
  | _, _ => inl IndexError
  end.
Proof.
  intros Hi. rewrite outcome_bind, outcome_getitem by done.
  destruct (episodes (meta dataset) !! Z.to_nat i) as [orig |]; [| done].
  rewrite outcome_bind, outcome_getitem by done.
  destruct (episodes (meta aligned) !! Z.to_nat i) as [al |]; [| done].
  apply outcome_assert.
Qed.

Lemma outcome_tasks_body (i : Z) :
  0 ≤ i →
  outcome (orig ← getitem (episodes (meta dataset)) i;
           al ← getitem (episodes (meta aligned)) i;
           assert (bool_decide (EpisodeRecord.tasks orig = EpisodeRecord.tasks al))
                  (Episode_tasks_mismatch i)) =
  match episodes (meta dataset) !! Z.to_nat i, episodes (meta aligned) !! Z.to_nat i with
  | Some orig, Some al =>
      if bool_decide (EpisodeRecord.tasks orig = EpisodeRecord.tasks al)
      then inr tt
      else inl (AssertionError (Episode_tasks_mismatch i))
  | _, _ => inl IndexError
  end.
Proof.
  intros Hi. rewrite outcome_bind, outcome_getitem by done.
  destruct (episodes (meta dataset) !! Z.to_nat i) as [orig |]; [| done].
  rewrite outcome_bind, outcome_getitem by done.
  destruct (episodes (meta aligned) !! Z.to_nat i) as [al |]; [| done].
  apply outcome_assert.
Qed.

Lemma passes_episode_lengths :
  passes (episode_lengths dataset aligned) ↔
  ∀ i, 0 ≤ i < Z.min 10 (total_episodes (meta dataset)) →
    ∃ orig al, records_at dataset aligned i orig al ∧
               EpisodeRecord.length orig = EpisodeRecord.length al.
Proof.
  unfold episode_lengths. rewrite passes_then_print, passes_for.
  apply forall_proper; intros i. rewrite elem_of_range.
  split; intros H Hi; specialize (H Hi); revert H;
    unfold passes, records_at; rewrite outcome_length_body by lia;
    destruct (episodes (meta dataset) !! Z.to_nat i) as [orig |],
             (episodes (meta aligned) !! Z.to_nat i) as [al |];
    try case_bool_decide; naive_solver.
Qed.

Lemma passes_episode_tasks :
  passes (episode_tasks dataset aligned) ↔
  ∀ i, 0 ≤ i < Z.min 10 (total_episodes (meta dataset)) →
    ∃ orig al, records_at dataset aligned i orig al ∧
               EpisodeRecord.tasks orig = EpisodeRecord.tasks al.
Proof.
  unfold episode_tasks. rewrite passes_then_print, passes_for.
  apply forall_proper; intros i. rewrite elem_of_range.
  split; intros H Hi; specialize (H Hi); revert H;
    unfold passes, records_at; rewrite outcome_tasks_body by lia;
    destruct (episodes (meta dataset) !! Z.to_nat i) as [orig |],
             (episodes (meta aligned) !! Z.to_nat i) as [al |];
    try case_bool_decide; naive_solver.
Qed.

End Episode_checks.

Lemma fails_seq (m k : M unit) (e : exception) :
  fails_with (m ;; k) e ↔ fails_with m e ∨ (passes m ∧ fails_with k e).
Proof.
  unfold fails_with, passes. rewrite outcome_bind.
  destruct (outcome m) as [e' | []]; intuition congruence.
Qed.

Lemma passes_episode_equivalence (dataset aligned : LeRobotDataset) :
  passes (episode_equivalence dataset aligned) ↔
  ∀ i, 0 ≤ i < Z.min 10 (total_episodes (meta dataset)) →
    ∃ orig al, records_at dataset aligned i orig al ∧
               EpisodeRecord.length orig = EpisodeRecord.length al ∧
               EpisodeRecord.tasks orig = EpisodeRecord.tasks al.
Proof.
  unfold episode_equivalence.
  rewrite passes_seq, passes_episode_lengths, passes_episode_tasks. split.
  - intros [Hlen Htasks] i Hi.
    destruct (Hlen i Hi) as (orig & al & [Ho Ha] & Hl).
    destruct (Htasks i Hi) as (orig' & al' & [Ho' Ha'] & Ht).
    exists orig, al. unfold records_at. split_and!; congruence.
  - intros H. split; intros i Hi;
      destruct (H i Hi) as (orig & al & Hrec & Hl & Ht); eauto.
Qed.

(** C1, as the script has it: the episode check compares the ordinals below
    [min(10, total_episodes)].  It passes exactly when at each of them both
    records exist and have equal [length] and equal [tasks]; an assertion it
    raises names a compared ordinal and the field that differs there. *)
Theorem episode_equivalence_first_ten (dataset aligned : LeRobotDataset) :
  (passes (episode_equivalence dataset aligned) ↔
   ∀ i, 0 ≤ i < Z.min 10 (total_episodes (meta dataset)) →
     ∃ orig al, records_at dataset aligned i orig al ∧
                EpisodeRecord.length orig = EpisodeRecord.length al ∧
                EpisodeRecord.tasks orig = EpisodeRecord.tasks al) ∧
  (∀ msg, fails_with (episode_equivalence dataset aligned) (AssertionError msg) →
     ∃ i orig al, 0 ≤ i < Z.min 10 (total_episodes (meta dataset)) ∧
       records_at dataset aligned i orig al ∧
       ((msg = Episode_length_mismatch i (EpisodeRecord.length orig)
                                         (EpisodeRecord.length al) ∧
         EpisodeRecord.length orig ≠ EpisodeRecord.length al) ∨
        (msg = Episode_tasks_mismatch i ∧
         EpisodeRecord.tasks orig ≠ EpisodeRecord.tasks al))).
Proof.
  split.
  - apply passes_episode_equivalence.
  - unfold episode_equivalence. intros msg. rewrite fails_seq. unfold episode_lengths, episode_tasks.
    rewrite !fails_then_print.
    intros [Hfail | [_ Hfail]];
      apply fails_for_elem in Hfail as (i & Hi & Hfail);
      apply elem_of_range in Hi; exists i; unfold fails_with in Hfail.
    + rewrite outcome_length_body in Hfail by lia. unfold records_at.
      destruct (episodes (meta dataset) !! Z.to_nat i) as [orig |],
               (episodes (meta aligned) !! Z.to_nat i) as [al |]; try done.
      case_bool_decide; [done |]. exists orig, al. naive_solver.
    + rewrite outcome_tasks_body in Hfail by lia. unfold records_at.
      destruct (episodes (meta dataset) !! Z.to_nat i) as [orig |],
               (episodes (meta aligned) !! Z.to_nat i) as [al |]; try done.
      case_bool_decide; [done |]. exists orig, al. naive_solver.
Qed.

Lemma episode_equivalence_first_ten_witness :
  ∃ i orig al, 0 ≤ i < Z.min 10 (total_episodes (meta Examples.small)) ∧
    records_at Examples.small Examples.small_swapped i orig al ∧
    ((Episode_tasks_mismatch 0
        = Episode_length_mismatch i (EpisodeRecord.length orig)
                                    (EpisodeRecord.length al) ∧
      EpisodeRecord.length orig ≠ EpisodeRecord.length al) ∨
     (Episode_tasks_mismatch 0 = Episode_tasks_mismatch i ∧
      EpisodeRecord.tasks orig ≠ EpisodeRecord.tasks al)).
Proof.
  apply (proj2 (episode_equivalence_first_ten Examples.small Examples.small_swapped)
               (Episode_tasks_mismatch 0)).
  vm_compute. reflexivity.
Defined.

(** Two datasets of eleven episodes that differ in the length of the
    eleventh pass the episode check: it does not reach every ordinal below
    [total_episodes]. *)
Lemma episode_equivalence_misses_eleventh :
  ¬ (∀ dataset aligned : LeRobotDataset,
       passes (episode_equivalence dataset aligned) →
       ∀ i, 0 ≤ i < total_episodes (meta dataset) →
         ∃ orig al, records_at dataset aligned i orig al ∧
                    EpisodeRecord.length orig = EpisodeRecord.length al ∧
                    EpisodeRecord.tasks orig = EpisodeRecord.tasks al).
Proof.
  intros H.
  destruct (H (Examples.eleven 1) (Examples.eleven 2)) with (i := 10)
    as (orig & al & [Ho Ha] & Hlen & _).
  - vm_compute. reflexivity.
  - vm_compute. split; [discriminate | reflexivity].
  - vm_compute in Ho, Ha. by simplify_eq.
Qed.

(** ** The cross-stream alignment check *)

Lemma range_split (n : Z) (pre post : list Z) (x : Z) :
  range n = pre ++ x :: post →
  0 ≤ x < n ∧ ∀ j, 0 ≤ j < x → j ∈ pre.
Proof.
  intros Heq.
  assert (Hlook : ∀ k y, range n !! k = Some y → y = Z.of_nat k).
  { intros k y. unfold range, range2. rewrite list_lookup_fmap.
    destruct (seq 0 (Z.to_nat (n - 0)) !! k) as [m |] eqn:Hm; [| done].
    apply lookup_seq in Hm as [-> _]. simpl. intros [= <-]. lia. }
  assert (Hx : x = Z.of_nat (length pre)).
  { apply Hlook. rewrite Heq. by apply list_lookup_middle. }
  split.
  - apply elem_of_range. rewrite Heq. apply elem_of_app. right. left.
  - intros j Hj.
    assert (Hjn : j ∈ range n).
    { apply elem_of_range. split; [lia |].
      assert (x ∈ range n) as Hxn
        by (rewrite Heq; apply elem_of_app; right; left).
      apply elem_of_range in Hxn. lia. }
    apply list_elem_of_lookup in Hjn as [k Hk].
    pose proof (Hlook _ _ Hk) as ->.
    rewrite Heq, lookup_app_l in Hk by lia.
    apply list_elem_of_lookup. eauto.
Qed.

Section Alignment.

Variable candidate : LeRobotDataset.

Lemma outcome_file_alignment_episode (video_key : string) (i : Z) :
  0 ≤ i →
  outcome (file_alignment_episode candidate video_key i) =
  match episodes (meta candidate) !! Z.to_nat i with
  | None => inl IndexError
  | Some ep =>
      match video_pair ep video_key with
      | None => inl (KeyError (missing_video_entry ep video_key))
      | Some v =>
          if bool_decide (data_pair ep = v) then
            if bool_decide (data_pair ep = meta_pair ep) then inr tt
            else inl (AssertionError (Data_ne_meta i (data_pair ep) (meta_pair ep)))
          else inl (AssertionError (Data_ne_video i (data_pair ep) v))
      end
  end.
Proof.
  intros Hi. unfold file_alignment_episode.
  rewrite outcome_bind, outcome_getitem by done.
  destruct (episodes (meta candidate) !! Z.to_nat i) as [ep |]; [| done].
  unfold video_pair, missing_video_entry.
  rewrite outcome_bind, outcome_video_entry.
  destruct (EpisodeRecord.videos_chunk_index ep !! video_key) as [vc |]; [| done].
  rewrite outcome_bind, outcome_video_entry.
  destruct (EpisodeRecord.videos_file_index ep !! video_key) as [vf |]; [| done].
  simpl. rewrite outcome_bind, !outcome_assert. unfold data_pair, meta_pair.
  by repeat case_bool_decide.
Qed.

Lemma passes_file_alignment_episode (video_key : string) (i : Z) :
  0 ≤ i →
  passes (file_alignment_episode candidate video_key i) ↔
  ∃ d v m, streams_at candidate video_key i d v m ∧ d = v ∧ d = m.
Proof.
  intros Hi. unfold passes, streams_at.
  rewrite outcome_file_alignment_episode by done.
  destruct (episodes (meta candidate) !! Z.to_nat i) as [ep |].
  2: { split; [done |]. by intros (d & v & m & (ep & ? & _) & _). }
  destruct (video_pair ep video_key) as [v |] eqn:Hpair.
  2: { split; [done |]. intros (d & v & m & (ep' & ? & _ & ? & _) & _).
       simplify_eq. }
  split.
  - repeat case_bool_decide; try done. intros _.
    exists (data_pair ep), v, (meta_pair ep). eauto 10.
  - intros (d & v' & m & (ep' & Hep & -> & Hv & ->) & Hdv & Hdm).
    simplify_eq. by rewrite !bool_decide_eq_true_2.
Qed.

Lemma outcome_file_alignment (first_video_key : string) :
  video_keys (meta candidate) !! 0%nat = Some first_video_key →
  outcome (file_alignment candidate) =
  outcome (for_ (range (Z.min 20 (total_episodes (meta candidate))))
                (file_alignment_episode candidate first_video_key)).
Proof.
  intros Hkey. unfold file_alignment.
  rewrite outcome_bind, (outcome_getitem _ 0) by done.
  change (Z.to_nat 0) with 0%nat. rewrite Hkey.
  rewrite outcome_bind, outcome_print.
  by destruct (outcome (for_ _ _)) as [e | []].
Qed.

(** C4: the alignment check reads the first video key and, for every
    episode among the first [min(20, total_episodes)] of the candidate,
    requires the data pair to equal that key's video pair and to equal the
    [meta/episodes] pair.  When the pairs of all these episodes can be read
    and two streams of one of them diverge, the check raises an assertion
    for the first such episode, naming it and two streams whose pairs differ
    there. *)
Theorem file_alignment_first_twenty :
  (passes (file_alignment candidate) ↔
   ∃ first_video_key, video_keys (meta candidate) !! 0%nat = Some first_video_key ∧
     ∀ i, 0 ≤ i < Z.min 20 (total_episodes (meta candidate)) →
       ∃ d v m, streams_at candidate first_video_key i d v m ∧ d = v ∧ d = m) ∧
  (∀ first_video_key,
     video_keys (meta candidate) !! 0%nat = Some first_video_key →
     (∀ i, 0 ≤ i < Z.min 20 (total_episodes (meta candidate)) →
        ∃ d v m, streams_at candidate first_video_key i d v m) →
     (∃ i d v m, 0 ≤ i < Z.min 20 (total_episodes (meta candidate)) ∧
        streams_at candidate first_video_key i d v m ∧ (d ≠ v ∨ d ≠ m ∨ v ≠ m)) →
     ∃ i d v m, 0 ≤ i < Z.min 20 (total_episodes (meta candidate)) ∧
       streams_at candidate first_video_key i d v m ∧
       (∀ j, 0 ≤ j < i → ∃ d' v' m',
          streams_at candidate first_video_key j d' v' m' ∧ d' = v' ∧ d' = m') ∧
       ((d ≠ v ∧ fails_with (file_alignment candidate)
                            (AssertionError (Data_ne_video i d v))) ∨
        (d ≠ m ∧ fails_with (file_alignment candidate)
                            (AssertionError (Data_ne_meta i d m))))).
Proof.
  split.
  - split.
    + intros Hpass.
      destruct (video_keys (meta candidate) !! 0%nat) as [key |] eqn:Hkey.
      * exists key. split; [done |]. intros i Hi.
        apply passes_file_alignment_episode; [lia |].
        unfold passes in Hpass. rewrite (outcome_file_alignment key) in Hpass by done.
        eapply passes_for; [exact Hpass |]. by apply elem_of_range.
      * unfold passes, file_alignment in Hpass.
        rewrite outcome_bind, (outcome_getitem _ 0) in Hpass by done.
        change (Z.to_nat 0) with 0%nat in Hpass. by rewrite Hkey in Hpass.
    + intros (key & Hkey & H). unfold passes.
      rewrite (outcome_file_alignment key) by done.
      apply passes_for. intros i Hi. apply elem_of_range in Hi.
      apply passes_file_alignment_episode; [lia | auto].
  - intros key Hkey Hread (i0 & d0 & v0 & m0 & Hi0 & Hs0 & Hdiv).
    unfold fails_with. rewrite (outcome_file_alignment key) by done.
    destruct (outcome (for_ (range (Z.min 20 (total_episodes (meta candidate))))
                            (file_alignment_episode candidate key)))
      as [e | []] eqn:Hout.
    2: { exfalso.
         pose proof (proj1 (passes_for _ _) Hout i0 (proj2 (elem_of_range _ _) Hi0)) as H.
         apply passes_file_alignment_episode in H; [| lia].
         destruct H as (d & v & m & (ep & Hep & -> & Hv & ->) & Hdv & Hdm).
         destruct Hs0 as (ep' & Hep' & -> & Hv' & ->). simplify_eq.
         destruct Hdiv as [? | [? | ?]]; congruence. }
    apply fails_for in Hout as (pre & i & post & Hsplit & Hpre & Hfail).
    apply range_split in Hsplit as [Hi Hbelow].
    destruct (Hread i Hi) as (d & v & m & Hs).
    exists i, d, v, m. split; [done |]. split; [done |]. split.
    { intros j Hj. apply passes_file_alignment_episode; [lia |].
      apply Hpre, Hbelow, Hj. }
    destruct Hs as (ep & Hep & -> & Hv & ->). unfold fails_with in Hfail.
    rewrite outcome_file_alignment_episode, Hep, Hv in Hfail by lia.
    repeat case_bool_decide; simplify_eq; [right | left ..]; done.
Qed.

End Alignment.

Lemma file_alignment_first_twenty_witness :
  ∃ i d v m, 0 ≤ i < Z.min 20 (total_episodes (meta Examples.misaligned)) ∧
    streams_at Examples.misaligned "cam" i d v m ∧
    (∀ j, 0 ≤ j < i → ∃ d' v' m',
       streams_at Examples.misaligned "cam" j d' v' m' ∧ d' = v' ∧ d' = m') ∧
    ((d ≠ v ∧ fails_with (file_alignment Examples.misaligned)
                         (AssertionError (Data_ne_video i d v))) ∨
     (d ≠ m ∧ fails_with (file_alignment Examples.misaligned)
                         (AssertionError (Data_ne_meta i d m)))).
Proof.
  apply (proj2 (file_alignment_first_twenty Examples.misaligned) "cam").
  - reflexivity.
  - change (Z.min 20 (total_episodes (meta Examples.misaligned))) with 3.
    intros i Hi.
    assert (i = 0 ∨ i = 1 ∨ i = 2) as [-> | [-> | ->]] by lia;
      eexists _, _, _, _; (split; [reflexivity |]); split_and!; reflexivity.
  - exists 1, (0, 0), (0, 1), (0, 0). split; [vm_compute; split; [discriminate | reflexivity] |].
    split; [| left; discriminate].
    eexists. split; [reflexivity |]. split_and!; reflexivity.
Defined.

(** ** The video decode check *)

Lemma foldr_Qmin_ge (lo x : Q) (xs : list Q) :
  (lo <= foldr Qmin x xs)%Q ↔ Forall (λ y, lo <= y)%Q (x :: xs).
Proof.
  induction xs as [| y xs IH]; simpl.
  - rewrite Forall_singleton. done.
  - rewrite Q.min_glb_iff, IH, !Forall_cons. tauto.
Qed.

Lemma foldr_Qmax_le (hi x : Q) (xs : list Q) :
  (foldr Qmax x xs <= hi)%Q ↔ Forall (λ y, y <= hi)%Q (x :: xs).
Proof.
  induction xs as [| y xs IH]; simpl.
  - rewrite Forall_singleton. done.
  - rewrite Q.max_lub_iff, IH, !Forall_cons. tauto.
Qed.

(** [min() >= 0 and max() <= 1] on a tensor with elements says that every
    element is in [0, 1]; on a tensor without elements [min()] raises. *)
Lemma outcome_valid_pixel_range (img : Tensor) :
  match data img with
  | [] => outcome (valid_pixel_range img) = inl RuntimeError
  | _ :: _ => ∃ ok, outcome (valid_pixel_range img) = inr ok ∧
                    (ok = true ↔ Forall in_unit_range (data img))
  end.
Proof.
  unfold valid_pixel_range, tensor_min, tensor_max.
  destruct (data img) as [| x xs] eqn:Hdata; [done |].
  rewrite outcome_bind, outcome_ret.
  destruct (Qle_bool 0 (foldr Qmin x xs)) eqn:Hlo.
  - rewrite outcome_bind, outcome_ret. eexists. split; [done |].
    apply Qle_bool_iff, foldr_Qmin_ge in Hlo.
    rewrite Qle_bool_iff, foldr_Qmax_le, !Forall_forall.
    rewrite Forall_forall in Hlo. unfold in_unit_range. naive_solver.
  - exists false. split; [done |]. split; [done |]. intros Hall.
    assert (Qle_bool 0 (foldr Qmin x xs) = true); [| congruence].
    apply Qle_bool_iff, foldr_Qmin_ge.
    eapply Forall_impl; [exact Hall |]. by intros y [? _].
Qed.

Section Video.

Variable candidate : LeRobotDataset.

Lemma valid_shape_true (img : Tensor) :
  valid_shape img = true ↔ three_channels_first img.
Proof.
  unfold valid_shape, three_channels_first.
  by rewrite andb_true_iff, !bool_decide_eq_true.
Qed.

Lemma outcome_video_frame (video_key : string) (img : Tensor) :
  decoded candidate video_key img →
  outcome (video_frame candidate video_key) =
  if valid_shape img then
    match outcome (valid_pixel_range img) with
    | inl e => inl e
    | inr ok => if ok then inr tt
                else inl (AssertionError (Video_invalid_pixel_range video_key))
    end
  else inl (AssertionError (Video_invalid_shape video_key)).
Proof.
  intros (frame & Hframe & Himg). unfold video_frame.
  rewrite outcome_bind, Hframe, outcome_bind, outcome_dict_getitem, Himg.
  rewrite outcome_bind, outcome_assert.
  destruct (valid_shape img); [| done].
  rewrite outcome_bind.
  destruct (outcome (valid_pixel_range img)) as [e | ok]; [done |].
  apply outcome_assert.
Qed.

Lemma passes_video_frame (video_key : string) :
  passes (video_frame candidate video_key) ↔
  ∃ img, decoded candidate video_key img ∧ three_channels_first img ∧
         data img ≠ [] ∧ Forall in_unit_range (data img).
Proof.
  split.
  - intros Hpass.
    assert (∃ img, decoded candidate video_key img) as [img Hdec].
    { unfold passes, video_frame in Hpass. unfold decoded.
      rewrite outcome_bind in Hpass.
      destruct (outcome (frame_at candidate 0)) as [e | frame]; [done |].
      rewrite outcome_bind, outcome_dict_getitem in Hpass.
      destruct (images frame !! video_key) as [img |] eqn:Himg; [| done].
      exists img, frame. done. }
    exists img. split; [done |]. unfold passes in Hpass.
    rewrite (outcome_video_frame _ img) in Hpass by done.
    destruct (valid_shape img) eqn:Hshape; [| done].
    apply valid_shape_true in Hshape. split; [done |].
    pose proof (outcome_valid_pixel_range img) as Hrange.
    destruct (data img) as [| x xs]; [by rewrite Hrange in Hpass |].
    destruct Hrange as (ok & Hok & Hall). rewrite Hok in Hpass.
    destruct ok; [| done]. split; [done | by apply Hall].
  - intros (img & Hdec & Hshape & Hne & Hall). unfold passes.
    rewrite (outcome_video_frame _ img) by done.
    apply valid_shape_true in Hshape. rewrite Hshape.
    pose proof (outcome_valid_pixel_range img) as Hrange.
    destruct (data img) as [| x xs]; [done |].
    destruct Hrange as (ok & -> & Hok). apply Hok in Hall. by subst ok.
Qed.

(** C7: the video decode check fetches, for each entry of the candidate's
    [video_keys], the frame at index 0 and requires its image under that key
    to have three dimensions, the leading one equal to 3, and every value in
    [0, 1] (a tensor without elements makes [min()] raise).  When the images
    of all keys have that shape and hold values, and one of them has a value
    above 1, the check raises the pixel-range assertion for a key whose
    image leaves [0, 1]. *)
Theorem video_frames_unit_range :
  (passes (video_frames candidate) ↔
   ∀ video_key, video_key ∈ video_keys (meta candidate) →
     ∃ img, decoded candidate video_key img ∧ three_channels_first img ∧
            data img ≠ [] ∧ Forall in_unit_range (data img)) ∧
  (∀ video_key img x,
     (∀ key, key ∈ video_keys (meta candidate) →
        ∃ img', decoded candidate key img' ∧ three_channels_first img' ∧ data img' ≠ []) →
     video_key ∈ video_keys (meta candidate) →
     decoded candidate video_key img → x ∈ data img → (1 < x)%Q →
     ∃ key img', key ∈ video_keys (meta candidate) ∧ decoded candidate key img' ∧
       ¬ Forall in_unit_range (data img') ∧
       fails_with (video_frames candidate)
                  (AssertionError (Video_invalid_pixel_range key))).
Proof.
  unfold video_frames. split.
  - rewrite passes_then_print, passes_for.
    apply forall_proper; intros key. by rewrite passes_video_frame.
  - intros video_key img x Hall Hkey Hdec Hx Hbig.
    assert (Hbad : ¬ Forall in_unit_range (data img)).
    { rewrite Forall_forall. intros H. destruct (H x Hx) as [_ Hle].
      by apply Qle_not_lt in Hle. }
    destruct (outcome (for_ (video_keys (meta candidate)) (video_frame candidate)))
      as [e | []] eqn:Hout.
    2: { exfalso. pose proof (proj1 (passes_for _ _) Hout _ Hkey) as Hpass.
         apply passes_video_frame in Hpass as (img' & Hdec' & _ & _ & Hin).
         destruct Hdec as (f & Hf & Hi), Hdec' as (f' & Hf' & Hi').
         rewrite Hf in Hf'. simplify_eq. done. }
    pose proof Hout as Hfail.
    apply fails_for_elem in Hfail as (key & Hin & Hfail).
    destruct (Hall key Hin) as (img' & Hdec' & Hshape & Hne).
    exists key, img'. split; [done |]. split; [done |].
    unfold fails_with in Hfail |- *.
    rewrite (outcome_video_frame _ img') in Hfail by done.
    apply valid_shape_true in Hshape. rewrite Hshape in Hfail.
    pose proof (outcome_valid_pixel_range img') as Hrange.
    destruct (data img') as [| y ys] eqn:Hdata; [done |].
    destruct Hrange as (ok & Hok & Hiff). rewrite Hok in Hfail.
    destruct ok; [done |]. injection Hfail as <-. split.
    + intros H. apply Hiff in H. done.
    + rewrite outcome_bind, Hout. done.
Qed.

End Video.

Lemma video_frames_unit_range_witness :
  ∃ key img', key ∈ video_keys (meta Examples.byte_valued) ∧
    decoded Examples.byte_valued key img' ∧
    ¬ Forall in_unit_range (data img') ∧
    fails_with (video_frames Examples.byte_valued)
               (AssertionError (Video_invalid_pixel_range key)).
Proof.
  apply (proj2 (video_frames_unit_range Examples.byte_valued)
               "cam" Examples.byte_image 255%Q).
  - intros key Hkey. apply list_elem_of_singleton in Hkey as ->.
    exists Examples.byte_image. split; [by eexists | by split].
  - by apply list_elem_of_singleton.
  - by eexists.
  - simpl. do 2 right. left.
  - reflexivity.
Defined.

(** ** The closeness test *)

Lemma forallb_close (rel_tol abs_tol : Q) (l : list (Q * Q)) :
  forallb (λ p : Q * Q, Qle_bool (Qabs (p.1 - p.2)) (abs_tol + rel_tol * Qabs p.2)) l
    = true ↔
  Forall (λ p : Q * Q, (Qabs (p.1 - p.2) <= abs_tol + rel_tol * Qabs p.2)%Q) l.
Proof.
  induction l as [| p l IH]; simpl.
  - split; [constructor | done].
  - by rewrite andb_true_iff, Forall_cons, IH, Qle_bool_iff.
Qed.

(** The reference instance follows the library's rule on tensors of one
    shape. *)
Lemma default_allclose_torch_rule : torch_rule default_allclose.
Proof.
  intros tol input other Hshape. unfold default_allclose, torch_allclose.
  rewrite bool_decide_eq_true_2 by done.
  eexists. split; [reflexivity |]. apply forallb_close.
Qed.

(** ** The sampled frame comparison of [split_parquet.py] *)

Section Sample_frames.

Variable allclose : Q → Tensor → Tensor → M bool.
Variables dataset aligned : LeRobotDataset.

Lemma passes_sample_frame (idx : Z) :
  passes (sample_frame allclose dataset aligned idx) ↔ frames_agree allclose dataset aligned idx.
Proof.
  unfold passes, sample_frame, frames_agree. rewrite outcome_bind.
  destruct (outcome (frame_at dataset idx)) as [e | o]; [naive_solver |].
  rewrite outcome_bind.
  destruct (outcome (frame_at aligned idx)) as [e | a]; [naive_solver |].
  rewrite outcome_bind.
  destruct (outcome (allclose atol (action o) (action a))) as [e | c] eqn:Hc.
  { split; [done |]. intros (? & ? & ? & ? & ? & _). simplify_eq. congruence. }
  rewrite outcome_bind, !outcome_assert.
  destruct c.
  - case_bool_decide.
    + split; [| done]. intros _. exists o, a. done.
    + split; [done |]. intros (? & ? & ? & ? & _ & ?). simplify_eq.
  - split; [done |]. intros (? & ? & ? & ? & ? & _). simplify_eq. congruence.
Qed.

Lemma passes_sample_frames :
  passes (sample_frames allclose dataset aligned) ↔
  ∀ idx, idx ∈ take num_samples (sample_indices dataset) →
         frames_agree allclose dataset aligned idx.
Proof.
  unfold sample_frames. rewrite passes_then_print, passes_for.
  apply forall_proper; intros idx. by rewrite passes_sample_frame.
Qed.

Lemma frames_agree_close (idx : Z) :
  torch_rule allclose →
  (∀ orig_frame aligned_frame,
     outcome (frame_at dataset idx) = inr orig_frame →
     outcome (frame_at aligned idx) = inr aligned_frame →
     shape (action orig_frame) = shape (action aligned_frame)) →
  frames_agree allclose dataset aligned idx ↔ frames_close dataset aligned idx.
Proof.
  intros Hrule Hshape. unfold frames_agree, frames_close.
  split; intros (o & a & Ho & Ha & Hclose & Hep); exists o, a;
    destruct (Hrule atol (action o) (action a) (Hshape o a Ho Ha))
      as (close & Hout & Hiff).
  - rewrite Hout in Hclose. injection Hclose as ->.
    split_and!; try done. by apply Hiff.
  - apply Hiff in Hclose as ->. done.
Qed.

(** C5, as the script has it: the sampled indices are the list
    [0, N // 4, N // 2, 3 * N // 4, N - 1], which holds index 0, index
    [total_frames - 1] and the quartile points and is iterated as it is, an
    index that occurs twice being compared twice.  With [torch.allclose]
    following the library's rule and the two [action] tensors of a sampled
    index having one shape, the check passes exactly when at every sampled
    index both frames can be fetched, every entry satisfies
    [|reference - candidate| <= atol + rtol * |candidate|] with
    [atol = rtol = 1e-5], and the [episode_index] labels are equal. *)
Theorem sample_frames_quartiles :
  torch_rule allclose →
  let n := total_frames (meta dataset) in
  (∀ idx orig_frame aligned_frame,
     idx ∈ [0; n `div` 4; n `div` 2; (3 * n) `div` 4; n - 1] →
     outcome (frame_at dataset idx) = inr orig_frame →
     outcome (frame_at aligned idx) = inr aligned_frame →
     shape (action orig_frame) = shape (action aligned_frame)) →
  take num_samples (sample_indices dataset) =
    [0; n `div` 4; n `div` 2; (3 * n) `div` 4; n - 1] ∧
  atol == 1 / 100000 ∧ rtol == 1 / 100000 ∧
  (passes (sample_frames allclose dataset aligned) ↔
   ∀ idx, idx ∈ [0; n `div` 4; n `div` 2; (3 * n) `div` 4; n - 1] →
          frames_close dataset aligned idx).
Proof.
  intros Hrule n Hshape. split_and!; try reflexivity.
  rewrite passes_sample_frames.
  change (take num_samples (sample_indices dataset))
    with [0; n `div` 4; n `div` 2; (3 * n) `div` 4; n - 1].
  split; intros H idx Hidx; specialize (H idx Hidx);
    apply (frames_agree_close idx Hrule); eauto.
Qed.

End Sample_frames.

Lemma sample_frames_quartiles_witness :
  frames_close Examples.small Examples.small 3.
Proof.
  apply (proj1 (proj2 (proj2 (proj2 (sample_frames_quartiles
           default_allclose Examples.small Examples.small
           default_allclose_torch_rule
           ltac:(by intros idx o a _ Ho Ha; rewrite Ho in Ha; injection Ha as ->)))))).
  - vm_compute. reflexivity.
  - do 3 right. left.
Defined.

(** On a dataset of four frames the sampled list is [0, 1, 2, 3, 3]:
    duplicates are not removed. *)
Lemma sample_indices_keep_duplicates :
  ¬ (∀ dataset : LeRobotDataset, NoDup (take num_samples (sample_indices dataset))).
Proof.
  intros H. specialize (H Examples.small).
  change (take num_samples (sample_indices Examples.small)) with [0; 1; 2; 3; 3] in H.
  do 3 apply NoDup_cons_1_2 in H. apply NoDup_cons_1_1 in H.
  apply H. left.
Qed.

(** The action [1.000015] against the action [1] differs by more than 1e-5
    and is close all the same, the bound being [1e-5 + 1e-5 * 1]. *)
Lemma not_within_absolute_tolerance :
  ¬ elementwise_close 0 atol (Examples.vector [1000015 # 1000000]%Q)
                              (Examples.vector [1]%Q) ∧
  ¬ elementwise_close 0 atol (Examples.vector [1]%Q)
                              (Examples.vector [1000015 # 1000000]%Q).
Proof.
  unfold elementwise_close. simpl.
  split; intros H; apply Forall_cons_1 in H as [H _]; vm_compute in H; by apply H.
Qed.

(** The sampled frame comparison neither removes duplicates (four frames
    give [0, 1, 2, 3, 3]) nor bounds the difference by 1e-5: the actions [1]
    and [1.000015] at frame 0 pass it. *)
Lemma sample_frames_duplicates_and_relative_tolerance :
  ¬ (∀ dataset : LeRobotDataset, NoDup (take num_samples (sample_indices dataset))) ∧
  ¬ (∀ dataset aligned : LeRobotDataset,
       passes (sample_frames default_allclose dataset aligned) →
       ∀ idx, idx ∈ take num_samples (sample_indices dataset) →
         ∃ orig_frame aligned_frame,
           outcome (frame_at dataset idx) = inr orig_frame ∧
           outcome (frame_at aligned idx) = inr aligned_frame ∧
           elementwise_close 0 atol (action orig_frame) (action aligned_frame)).
Proof.
  split; [exact sample_indices_keep_duplicates |]. intros H.
  destruct (H (Examples.one_frame 1) (Examples.one_frame (1000015 # 1000000)))
    with (idx := 0) as (o & a & Ho & Ha & Hclose).
  - vm_compute. reflexivity.
  - left.
  - vm_compute in Ho, Ha. injection Ho as <-. injection Ha as <-.
    by apply not_within_absolute_tolerance in Hclose.
Qed.

(** ** Statements in sequence *)

Lemma passes_run (stages : list (M unit)) :
  passes (run stages) ↔ ∀ s, s ∈ stages → passes s.
Proof.
  induction stages as [| s stages IH]; simpl.
  - split; [intros _ s Hs; by apply elem_of_nil in Hs | done].
  - rewrite passes_seq, IH. split.
    + intros [Hs Hrest] s' Hs'. apply elem_of_cons in Hs' as [-> | Hs']; auto.
    + intros H. split; [apply H; left | intros s' Hs'; apply H; by right].
Qed.

(** A run whose stage [s] raises after the stages [pre] have passed prints
    what [pre] and [s] printed and ends with the exception of [s]; the
    stages after [s] contribute nothing. *)
Lemma run_stops (pre post : list (M unit)) (s : M unit) (e : exception) :
  (∀ p, p ∈ pre → passes p) → fails_with s e →
  run (pre ++ s :: post) = (concat (printed <$> pre) ++ printed s, inl e).
Proof.
  intros Hpre Hs. induction pre as [| p pre IH]; simpl.
  - destruct s as [out [e' | []]]; [| done].
    unfold fails_with, outcome in Hs; simpl in Hs. by simplify_eq.
  - rewrite IH by (intros q Hq; apply Hpre; by right).
    specialize (Hpre p (list_elem_of_here _ _)).
    destruct p as [out [e' | []]]; [done |].
    unfold mbind, M_bind, printed; simpl. by rewrite (assoc_L (++)).
Qed.

Lemma run_then_print_stops (stages : list (M unit)) (l : line)
    (out : list line) (e : exception) :
  run stages = (out, inl e) → (run stages ;; print l) = (out, inl e).
Proof. by intros ->. Qed.

(** ** A dataset against itself *)

Section Reflexivity.

Variable allclose : Q → Tensor → Tensor → M bool.
Variable D : LeRobotDataset.

Lemma metadata_counts_refl : passes (metadata_counts D D).
Proof. by apply passes_metadata_counts. Qed.

Lemma episode_equivalence_refl :
  (∀ i, 0 ≤ i < Z.min 10 (total_episodes (meta D)) →
        is_Some (episodes (meta D) !! Z.to_nat i)) →
  passes (episode_equivalence D D).
Proof.
  intros Hrec. apply passes_episode_equivalence. intros i Hi.
  destruct (Hrec i Hi) as [ep Hep]. by exists ep, ep.
Qed.

Lemma sample_frames_refl : samples_readable allclose D → passes (sample_frames allclose D D).
Proof.
  intros Hread. apply passes_sample_frames. intros idx Hidx.
  destruct (Hread idx Hidx) as (frame & Hframe & Hclose).
  by exists frame, frame.
Qed.

(** C6, as the script has it: against itself a dataset passes the metadata
    check; it passes the episode check when its first
    [min(10, total_episodes)] episode records exist, and the sampled frame
    comparison when the sampled frames can be fetched and are close to
    themselves.  The video decode and alignment checks look at the candidate
    alone, so under these two conditions the whole validation of a dataset
    against itself passes exactly when the dataset has valid video frames
    and aligned streams. *)
Theorem self_check_identity_order :
  (∀ i, 0 ≤ i < Z.min 10 (total_episodes (meta D)) →
        is_Some (episodes (meta D) !! Z.to_nat i)) →
  samples_readable allclose D →
  passes (metadata_counts D D) ∧
  passes (episode_equivalence D D) ∧
  passes (sample_frames allclose D D) ∧
  (passes (split_parquet_validation allclose D D) ↔
   passes (video_frames D) ∧ passes (file_alignment D)).
Proof.
  intros Hrec Hread.
  pose proof metadata_counts_refl as Hmeta.
  pose proof (episode_equivalence_refl Hrec) as Hep.
  pose proof (sample_frames_refl Hread) as Hsample.
  split_and!; try done.
  unfold split_parquet_validation. rewrite passes_then_print, passes_run.
  unfold split_parquet_stages.
  apply passes_seq in Hep as [Hlen Htasks]. split.
  - intros H. split; apply H; set_solver.
  - intros [Hvideo Halign] s Hs. set_unfold in Hs. naive_solver.
Qed.

End Reflexivity.

Lemma self_check_identity_order_witness :
  passes (metadata_counts Examples.small Examples.small) ∧
  passes (episode_equivalence Examples.small Examples.small) ∧
  passes (sample_frames default_allclose Examples.small Examples.small) ∧
  (passes (split_parquet_validation default_allclose Examples.small Examples.small) ↔
   passes (video_frames Examples.small) ∧ passes (file_alignment Examples.small)).
Proof.
  apply (self_check_identity_order default_allclose Examples.small).
  - change (Z.min 10 (total_episodes (meta Examples.small))) with 2.
    intros i Hi. assert (i = 0 ∨ i = 1) as [-> | ->] by lia; by eexists.
  - intros idx Hidx.
    change (take num_samples (sample_indices Examples.small))
      with [0; 1; 2; 3; 3] in Hidx.
    repeat (apply elem_of_cons in Hidx as [-> | Hidx];
            [eexists; split; reflexivity |]).
    by apply elem_of_nil in Hidx.
Defined.

(** A dataset whose second episode has its video in another file than its
    data does not pass the validation against itself: the alignment check
    raises for that episode. *)
Lemma self_check_fails_when_misaligned :
  ¬ (∀ D : LeRobotDataset, passes (split_parquet_validation default_allclose D D)).
Proof.
  intros H. specialize (H Examples.misaligned).
  assert (Hfail : fails_with
            (split_parquet_validation default_allclose Examples.misaligned
                                      Examples.misaligned)
            (AssertionError (Data_ne_video 1 (0, 0) (0, 1))))
    by (vm_compute; reflexivity).
  unfold passes in H. unfold fails_with in Hfail. congruence.
Qed.

(** ** The first failing assertion ends the run *)

(** C9, as the scripts have it: the checks are statements in sequence, so
    the first check that raises ends the run.  The run prints what the
    checks before it and the failing check itself printed and ends with that
    check's exception; no later check is run. *)
Theorem validation_stops_at_first_failure
    (allclose : Q → Tensor → Tensor → M bool) (dataset candidate : LeRobotDataset) :
  (∀ pre s post e,
     split_parquet_stages allclose dataset candidate = pre ++ s :: post →
     (∀ p, p ∈ pre → passes p) → fails_with s e →
     split_parquet_validation allclose dataset candidate =
       (concat (printed <$> pre) ++ printed s, inl e)) ∧
  (∀ pre s post e,
     split_parquet_and_shuffle_stages allclose dataset candidate = pre ++ s :: post →
     (∀ p, p ∈ pre → passes p) → fails_with s e →
     split_parquet_and_shuffle_validation allclose dataset candidate =
       (concat (printed <$> pre) ++ printed s, inl e)).
Proof.
  split; intros pre s post e Hstages Hpre Hs.
  - unfold split_parquet_validation. rewrite Hstages.
    by apply run_then_print_stops, run_stops.
  - unfold split_parquet_and_shuffle_validation. rewrite Hstages.
    by apply run_then_print_stops, run_stops.
Qed.

Lemma validation_stops_at_first_failure_witness :
  split_parquet_validation default_allclose Examples.small Examples.small_extra_frame =
    (concat (printed <$> ([] : list (M unit)))
       ++ printed (metadata_counts Examples.small Examples.small_extra_frame),
     inl (AssertionError Frame_count_mismatch)).
Proof.
  eapply (proj1 (validation_stops_at_first_failure
                   default_allclose Examples.small Examples.small_extra_frame)
                [] (metadata_counts Examples.small Examples.small_extra_frame)).
  - reflexivity.
  - intros p Hp. by apply elem_of_nil in Hp.
  - reflexivity.
Defined.

(** With one frame more in the candidate's metadata the run ends in the
    metadata check and prints nothing, although the video decode check of
    that candidate passes on its own: the later checks are not completed. *)
Lemma later_stages_are_not_run :
  ¬ (∀ (dataset candidate : LeRobotDataset) (s : M unit),
       s ∈ split_parquet_stages default_allclose dataset candidate →
       passes s →
       ∀ l, l ∈ printed s →
            l ∈ printed (split_parquet_validation default_allclose dataset candidate)).
Proof.
  intros H.
  specialize (H Examples.small Examples.small_extra_frame
                (video_frames Examples.small_extra_frame)).
  assert (Hrun : split_parquet_validation default_allclose Examples.small
                   Examples.small_extra_frame
                 = ([], inl (AssertionError Frame_count_mismatch)))
    by (vm_compute; reflexivity).
  rewrite Hrun in H.
  eapply elem_of_nil, (H ltac:(set_solver) ltac:(vm_compute; reflexivity)
                         Video_frames_decode_correctly).
  vm_compute. left.
Qed.

(** ** The order-change check of [split_parquet_and_shuffle.py] *)

Lemma two_distinct_elements (l : list (list string)) :
  (1 < size (list_to_set l : gset (list string)))%nat ↔
  ∃ x y, x ∈ l ∧ y ∈ l ∧ x ≠ y.
Proof.
  split.
  - intros Hsize. unfold size, set_size in Hsize; simpl in Hsize.
    pose proof (NoDup_elements (list_to_set l : gset (list string))) as Hnodup.
    destruct (elements (list_to_set l : gset (list string)))
      as [| x [| y rest]] eqn:Hel; simpl in Hsize; [lia | lia |].
    exists x, y.
    assert (Hx : x ∈ (list_to_set l : gset (list string)))
      by (apply elem_of_elements; rewrite Hel; left).
    assert (Hy : y ∈ (list_to_set l : gset (list string)))
      by (apply elem_of_elements; rewrite Hel; right; left).
    apply elem_of_list_to_set in Hx, Hy. split_and!; [done | done |].
    apply NoDup_cons_1_1 in Hnodup. intros ->. apply Hnodup. left.
  - intros (x & y & Hx & Hy & Hne).
    assert (Hsub : ({[x; y]} : gset (list string)) ⊆ list_to_set l).
    { intros z Hz. apply elem_of_list_to_set.
      apply elem_of_union in Hz as [Hz | Hz];
        apply elem_of_singleton in Hz; by subst. }
    apply subseteq_size in Hsub.
    rewrite size_union, !size_singleton in Hsub by set_solver. lia.
Qed.

Section Order_changed.

Variables dataset shuffled : LeRobotDataset.

(** C8, as the script has it: the order-change check asserts only when the
    reference has at least 5 episodes.  Then, with N the smaller of 10 and
    [total_episodes], if two distinct tasks tuples occur among the first N
    reference episodes the check passes exactly when the candidate's first-N
    tasks sequence differs from the reference's, and raises on identical
    sequences; if all of them share one tasks tuple it prints the same-task
    warning and passes.  With fewer than 5 episodes it prints the
    too-few-episodes warning and passes, whatever the tasks. *)
Theorem order_changed_from_five_episodes :
  let n := Z.min 10 (total_episodes (meta dataset)) in
  (total_episodes (meta dataset) < 5 →
     order_changed dataset shuffled = print Warn_too_few_episodes) ∧
  (∀ o s, 5 ≤ total_episodes (meta dataset) →
     outcome (first_tasks dataset n) = inr o →
     outcome (first_tasks shuffled n) = inr s →
     ((∃ x y, x ∈ o ∧ y ∈ o ∧ x ≠ y) →
        (passes (order_changed dataset shuffled) ↔ o ≠ s) ∧
        (o = s → fails_with (order_changed dataset shuffled)
                            (AssertionError Episodes_not_shuffled))) ∧
     ((∀ x y, x ∈ o → y ∈ o → x = y) →
        passes (order_changed dataset shuffled) ∧
        Warn_all_episodes_have_same_task ∈ printed (order_changed dataset shuffled))).
Proof.
  intros n. unfold order_changed. fold n. split.
  - intros Hfew. by rewrite bool_decide_eq_false_2 by lia.
  - intros o s Hfive Ho Hs. rewrite bool_decide_eq_true_2 by done.
    destruct (first_tasks dataset n) as [out1 r1].
    destruct (first_tasks shuffled n) as [out2 r2].
    unfold outcome in Ho, Hs; simpl in Ho, Hs; subst r1 r2.
    unfold passes, fails_with, outcome, printed, mbind, M_bind; simpl.
    split.
    + intros Hdistinct. apply two_distinct_elements in Hdistinct.
      rewrite bool_decide_eq_true_2 by done.
      destruct (decide (o = s)) as [Heq | Hne].
      * rewrite (bool_decide_eq_false_2 (o ≠ s)) by tauto. simpl.
        split; [| done]. split; [done | tauto].
      * rewrite (bool_decide_eq_true_2 (o ≠ s)) by done. simpl.
        split; [| done]. split; [done | tauto].
    + intros Hsame.
      rewrite bool_decide_eq_false_2.
      2: { rewrite two_distinct_elements. intros (x & y & Hx & Hy & Hne).
           by apply Hne, Hsame. }
      simpl. split; [done |]. rewrite !elem_of_app. do 2 right. left.
Qed.

End Order_changed.

Lemma order_changed_from_five_episodes_witness :
  (passes (order_changed Examples.six_alternating Examples.six_reordered) ↔
   [["pick"]; ["place"]; ["pick"]; ["place"]; ["pick"]; ["place"]]
   ≠ [["place"]; ["pick"]; ["pick"]; ["place"]; ["place"]; ["pick"]]) ∧
  ([["pick"]; ["place"]; ["pick"]; ["place"]; ["pick"]; ["place"]]
   = [["place"]; ["pick"]; ["pick"]; ["place"]; ["place"]; ["pick"]] →
   fails_with (order_changed Examples.six_alternating Examples.six_reordered)
              (AssertionError Episodes_not_shuffled)).
Proof.
  apply (proj2 (order_changed_from_five_episodes
                  Examples.six_alternating Examples.six_reordered)).
  - vm_compute. discriminate.
  - reflexivity.
  - reflexivity.
  - exists ["pick"], ["place"]. split_and!; [left | right; left | discriminate].
Defined.

(** Two episodes with different tasks, candidate identical to the
    reference: the check prints the too-few-episodes warning and passes. *)
Lemma order_changed_skips_small_datasets :
  ¬ (∀ (dataset shuffled : LeRobotDataset) (o s : list (list string)),
       outcome (first_tasks dataset (Z.min 10 (total_episodes (meta dataset)))) = inr o →
       outcome (first_tasks shuffled (Z.min 10 (total_episodes (meta dataset)))) = inr s →
       (∃ x y, x ∈ o ∧ y ∈ o ∧ x ≠ y) →
       (passes (order_changed dataset shuffled) ↔ o ≠ s)).
Proof.
  intros H.
  specialize (H Examples.small Examples.small [["pick"]; ["place"]]
                [["pick"]; ["place"]] eq_refl eq_refl).
  destruct H as [H _].
  - exists ["pick"], ["place"]. split_and!; [left | right; left | discriminate].
  - by apply H.
Qed.

(** ** The episode matching search of [split_parquet_and_shuffle.py] *)

Lemma outcome_comprehension {A B} (xs : list A) (f : A → M B) (ys : list B) :
  outcome (comprehension xs f) = inr ys ↔
  Forall2 (λ x y, outcome (f x) = inr y) xs ys.
Proof.
  revert ys. induction xs as [| x xs IH]; intros ys; cbn [comprehension].
  - rewrite outcome_ret. split.
    + intros [= <-]. constructor.
    + intros H. by inversion H.
  - rewrite outcome_bind. destruct (outcome (f x)) as [e | y] eqn:Hy.
    { split; [done |]. intros H. inversion H; congruence. }
    rewrite outcome_bind.
    destruct (outcome (comprehension xs f)) as [e | ys'] eqn:Hys.
    { split; [done |]. intros H. inversion H as [| ? y' ? ys' Hy' Hys']; subst.
      apply IH in Hys'. congruence. }
    cbv beta. rewrite outcome_ret. split.
    + intros [= <-]. constructor; [done |]. by apply IH.
    + intros H. inversion H as [| ? y' ? ys'' Hy' Hys'']; subst.
      apply IH in Hys''. congruence.
Qed.

Lemma Forall2_outcome_functional {A B} (f : A → M B) (xs : list A) (ys ys' : list B) :
  Forall2 (λ x y, outcome (f x) = inr y) xs ys →
  Forall2 (λ x y, outcome (f x) = inr y) xs ys' →
  ys = ys'.
Proof.
  intros H. revert ys'. induction H as [| x y xs ys Hy _ IH]; intros ys' H'.
  - by inversion H'.
  - inversion H' as [| ? y' ? ys'' Hy' Hys'']; subst.
    rewrite Hy in Hy'. injection Hy' as <-. f_equal. by apply IH.
Qed.

(** What [get_episode_actions] returns: the stacked [action] tensors of the
    frames at the first (at most 10) global indices of the episode. *)
Lemma get_episode_actions_first_ten (ds : LeRobotDataset) (ep_idx : Z) (t : Tensor) :
  outcome (get_episode_actions ds ep_idx) = inr t ↔
  ∃ ep frames,
    outcome (getitem (episodes (meta ds)) ep_idx) = inr ep ∧
    Forall2 (λ i frame, outcome (frame_at ds i) = inr frame)
      (range2 (EpisodeRecord.dataset_from_index ep)
              (Z.min (EpisodeRecord.dataset_from_index ep + 10)
                     (EpisodeRecord.dataset_to_index ep)))
      frames ∧
    (length frames ≤ 10)%nat ∧
    outcome (stack (action <$> frames)) = inr t.
Proof.
  unfold get_episode_actions. rewrite outcome_bind.
  destruct (outcome (getitem (episodes (meta ds)) ep_idx)) as [e | ep].
  { split; [done |]. by intros (? & ? & ? & _). }
  rewrite outcome_bind.
  set (idxs := range2 _ _).
  assert (Hlen : (length idxs ≤ 10)%nat).
  { unfold idxs, range2. rewrite length_fmap, length_seq. lia. }
  destruct (outcome (comprehension idxs _)) as [e | actions] eqn:Hacts.
  - split; [done |]. intros (ep' & frames & [= <-] & Hframes & _ & _).
    assert (outcome (comprehension idxs
              (λ i, frame ← frame_at ds i; mret (action frame)))
            = inr (action <$> frames)); [| congruence].
    apply outcome_comprehension. apply Forall2_fmap_r.
    eapply Forall2_impl; [exact Hframes |]. intros i frame Hi. simpl.
    by rewrite outcome_bind, Hi.
  - apply outcome_comprehension in Hacts.
    assert (Hframes : ∃ frames,
              Forall2 (λ i frame, outcome (frame_at ds i) = inr frame) idxs frames ∧
              actions = action <$> frames).
    { clear Hlen. revert Hacts. generalize idxs. clear idxs.
      intros idxs Hacts. induction Hacts as [| i a idxs actions Hi _ IH].
      - by exists [].
      - destruct IH as (frames & Hframes & ->).
        rewrite outcome_bind in Hi.
        destruct (outcome (frame_at ds i)) as [e | frame] eqn:Hframe; [done |].
        injection Hi as <-. exists (frame :: frames). split; [| done].
        by constructor. }
    destruct Hframes as (frames & Hframes & ->). split.
    + intros Hstack. exists ep, frames. split_and!; try done.
      apply Forall2_length in Hframes. lia.
    + intros (ep' & frames' & [= <-] & Hframes' & _ & Hstack).
      by rewrite (Forall2_outcome_functional _ _ _ _ Hframes Hframes').
Qed.

Section Matching.

Variable allclose : Q → Tensor → Tensor → M bool.
Variable dataset : LeRobotDataset.

Lemma outcome_matches_true (shuffled_actions : Tensor) (old_idx : Z) :
  outcome (matches allclose dataset shuffled_actions old_idx) = inr true ↔
  matching_episode allclose dataset shuffled_actions old_idx.
Proof.
  unfold matches, matching_episode. rewrite outcome_bind.
  destruct (outcome (get_episode_actions dataset old_idx)) as [e | oa].
  { split; [done |]. by intros (? & ? & _). }
  case_bool_decide as Hshape.
  - split; [by exists oa |]. by intros (? & [= <-] & _ & ?).
  - rewrite outcome_ret. split; [done |]. by intros (? & [= <-] & ? & _).
Qed.

Lemma outcome_find_match_cons (shuffled_actions : Tensor) (old_idx : Z) (rest : list Z) :
  outcome (find_match allclose dataset shuffled_actions (old_idx :: rest)) =
  match outcome (matches allclose dataset shuffled_actions old_idx) with
  | inr true => inr true
  | _ => outcome (find_match allclose dataset shuffled_actions rest)
  end.
Proof.
  simpl. rewrite outcome_bind, outcome_try_except.
  by destruct (outcome (matches allclose dataset shuffled_actions old_idx))
    as [e | []].
Qed.

(** The search never raises, and finds a match exactly when one of the
    scanned reference episodes matches. *)
Lemma outcome_find_match (shuffled_actions : Tensor) (old_idxs : list Z) :
  ∃ found, outcome (find_match allclose dataset shuffled_actions old_idxs) = inr found ∧
    (found = true ↔
     ∃ old_idx, old_idx ∈ old_idxs ∧ matching_episode allclose dataset shuffled_actions old_idx).
Proof.
  induction old_idxs as [| old_idx rest (found & Hfound & IH)].
  - exists false. split; [done |]. split; [done |].
    intros (? & Hin & _). by apply elem_of_nil in Hin.
  - rewrite outcome_find_match_cons.
    destruct (outcome (matches allclose dataset shuffled_actions old_idx))
      as [e | [|]] eqn:Hm.
    + exists found. split; [done |]. rewrite IH. split.
      * intros (o & Ho & Hmatch). exists o. split; [by right | done].
      * intros (o & Ho & Hmatch). apply elem_of_cons in Ho as [-> | Ho]; [| eauto].
        apply outcome_matches_true in Hmatch. congruence.
    + exists true. split; [done |]. split; [| done]. intros _.
      exists old_idx. split; [left |]. by apply outcome_matches_true.
    + exists found. split; [done |]. rewrite IH. split.
      * intros (o & Ho & Hmatch). exists o. split; [by right | done].
      * intros (o & Ho & Hmatch). apply elem_of_cons in Ho as [-> | Ho]; [| eauto].
        apply outcome_matches_true in Hmatch. congruence.
Qed.

Variable shuffled : LeRobotDataset.

Lemma outcome_check_episode (new_idx : Z) (shuffled_actions : Tensor) :
  outcome (get_episode_actions shuffled new_idx) = inr shuffled_actions →
  (passes (check_episode allclose dataset shuffled new_idx) ∧
   has_match allclose dataset shuffled_actions) ∨
  (fails_with (check_episode allclose dataset shuffled new_idx)
              (AssertionError (No_matching_data new_idx)) ∧
   ¬ has_match allclose dataset shuffled_actions).
Proof.
  intros Hsa. unfold passes, fails_with, check_episode.
  rewrite outcome_bind, Hsa, outcome_bind.
  destruct (outcome_find_match shuffled_actions
              (range (total_episodes (meta dataset)))) as (found & -> & Hfound).
  rewrite outcome_assert. unfold has_match.
  destruct found; [left | right]; (split; [done |]).
  - destruct (proj1 Hfound eq_refl) as (o & Ho & Hm).
    exists o. by rewrite <- elem_of_range.
  - intros (o & Ho & Hm). apply elem_of_range in Ho.
    assert (false = true) by (apply Hfound; eauto). done.
Qed.

Lemma passes_check_episode (new_idx : Z) :
  passes (check_episode allclose dataset shuffled new_idx) ↔
  ∃ shuffled_actions,
    outcome (get_episode_actions shuffled new_idx) = inr shuffled_actions ∧
    has_match allclose dataset shuffled_actions.
Proof.
  destruct (outcome (get_episode_actions shuffled new_idx)) as [e | sa] eqn:Hsa.
  - unfold passes, check_episode. rewrite outcome_bind, Hsa.
    split; [done |]. by intros (? & ? & _).
  - destruct (outcome_check_episode _ _ Hsa) as [[Hp Hm] | [Hf Hm]].
    + split; [by exists sa | done].
    + unfold passes, fails_with in *. rewrite Hf. split; [done |].
      intros (? & [= <-] & ?). done.
Qed.

End Matching.

Lemma has_match_search (allclose : Q → Tensor → Tensor → M bool)
    (dataset : LeRobotDataset) (shuffled_actions : Tensor) :
  outcome (find_match allclose dataset shuffled_actions
             (range (total_episodes (meta dataset)))) = inr true ↔
  has_match allclose dataset shuffled_actions.
Proof.
  destruct (outcome_find_match allclose dataset shuffled_actions
              (range (total_episodes (meta dataset)))) as (found & -> & Hfound).
  unfold has_match. setoid_rewrite <- elem_of_range.
  rewrite <- Hfound. split; congruence.
Qed.

Lemma frame_integrity_has_match
    (allclose : Q → Tensor → Tensor → M bool) (dataset shuffled : LeRobotDataset) :
  let n := total_episodes (meta shuffled) in
  take 3 (check_indices shuffled) = [0; n `div` 2; n - 1] ∧
  atol == 1 / 100000 ∧
  (passes (frame_integrity allclose dataset shuffled) ↔
   ∀ new_idx, new_idx ∈ [0; n `div` 2; n - 1] →
     ∃ shuffled_actions,
       outcome (get_episode_actions shuffled new_idx) = inr shuffled_actions ∧
       has_match allclose dataset shuffled_actions) ∧
  (∀ new_idx shuffled_actions,
     (∀ idx, idx ∈ [0; n `div` 2; n - 1] →
        ∃ actions, outcome (get_episode_actions shuffled idx) = inr actions) →
     new_idx ∈ [0; n `div` 2; n - 1] →
     outcome (get_episode_actions shuffled new_idx) = inr shuffled_actions →
     ¬ has_match allclose dataset shuffled_actions →
     ∃ idx actions, idx ∈ [0; n `div` 2; n - 1] ∧
       outcome (get_episode_actions shuffled idx) = inr actions ∧
       ¬ has_match allclose dataset actions ∧
       fails_with (frame_integrity allclose dataset shuffled)
                  (AssertionError (No_matching_data idx))).
Proof.
  intros n. split; [reflexivity |]. split; [reflexivity |].
  unfold frame_integrity.
  change (take 3 (check_indices shuffled)) with [0; n `div` 2; n - 1].
  split.
  - rewrite passes_then_print, passes_for.
    apply forall_proper; intros idx. by rewrite passes_check_episode.
  - intros new_idx sa Hread Hin Hsa Hno.
    destruct (outcome (for_ [0; n `div` 2; n - 1]
                            (check_episode allclose dataset shuffled)))
      as [e | []] eqn:Hout.
    2: { exfalso. pose proof (proj1 (passes_for _ _) Hout _ Hin) as Hpass.
         apply passes_check_episode in Hpass as (sa' & Hsa' & Hm). congruence. }
    pose proof Hout as Hfail.
    apply fails_for_elem in Hfail as (idx & Hidx & Hfail).
    destruct (Hread idx Hidx) as (actions & Hactions).
    exists idx, actions. split; [done |]. split; [done |].
    destruct (outcome_check_episode allclose dataset shuffled idx actions Hactions)
      as [[Hp _] | [Hf Hnm]].
    + unfold passes, fails_with in *. congruence.
    + split; [done |]. unfold fails_with in *.
      rewrite outcome_bind, Hout. congruence.
Qed.

Lemma has_match_close_match (allclose : Q → Tensor → Tensor → M bool)
    (dataset : LeRobotDataset) (shuffled_actions : Tensor) :
  torch_rule allclose →
  has_match allclose dataset shuffled_actions ↔ close_match dataset shuffled_actions.
Proof.
  intros Hrule. unfold has_match, matching_episode, close_match. split.
  - intros (old & Hold & oa & Hoa & Hshape & Hclose).
    destruct (Hrule atol shuffled_actions oa Hshape) as (close & Hout & Hiff).
    rewrite Hout in Hclose. injection Hclose as ->.
    exists old, oa. do 3 (split; [done |]). by apply Hiff.
  - intros (old & oa & Hold & Hoa & Hshape & Hclose).
    destruct (Hrule atol shuffled_actions oa Hshape) as (close & Hout & Hiff).
    apply Hiff in Hclose as ->. exists old. split; [done |]. by exists oa.
Qed.

(** C3, as the script has it: in the shuffled validation the episodes under
    test are the candidate ordinals 0, [total_episodes // 2] and
    [total_episodes - 1].  With [torch.allclose] following the library's
    rule, the check passes exactly when for each of them the stacked actions
    of its first (at most 10) frames can be fetched and some reference
    episode below the reference's [total_episodes] yields actions of the
    same shape with every entry satisfying
    [|candidate - reference| <= atol + rtol * |reference|],
    [atol = rtol = 1e-5].  When the actions of all tested episodes can be
    fetched and one of them has no such reference episode, the check raises
    the no-matching-data assertion for a tested episode that has none. *)
Theorem frame_integrity_requires_match
    (allclose : Q → Tensor → Tensor → M bool) (dataset shuffled : LeRobotDataset) :
  torch_rule allclose →
  let n := total_episodes (meta shuffled) in
  take 3 (check_indices shuffled) = [0; n `div` 2; n - 1] ∧
  atol == 1 / 100000 ∧ rtol == 1 / 100000 ∧
  (passes (frame_integrity allclose dataset shuffled) ↔
   ∀ new_idx, new_idx ∈ [0; n `div` 2; n - 1] →
     ∃ shuffled_actions,
       outcome (get_episode_actions shuffled new_idx) = inr shuffled_actions ∧
       close_match dataset shuffled_actions) ∧
  (∀ new_idx shuffled_actions,
     (∀ idx, idx ∈ [0; n `div` 2; n - 1] →
        ∃ actions, outcome (get_episode_actions shuffled idx) = inr actions) →
     new_idx ∈ [0; n `div` 2; n - 1] →
     outcome (get_episode_actions shuffled new_idx) = inr shuffled_actions →
     ¬ close_match dataset shuffled_actions →
     ∃ idx actions, idx ∈ [0; n `div` 2; n - 1] ∧
       outcome (get_episode_actions shuffled idx) = inr actions ∧
       ¬ close_match dataset actions ∧
       fails_with (frame_integrity allclose dataset shuffled)
                  (AssertionError (No_matching_data idx))).
Proof.
  intros Hrule n.
  destruct (frame_integrity_has_match allclose dataset shuffled)
    as (Hindices & _ & Hpass & Hfail). fold n in Hindices, Hpass, Hfail.
  split_and!; try done.
  - rewrite Hpass. split; intros H idx Hidx;
      destruct (H idx Hidx) as (sa & Hsa & Hm); exists sa; (split; [done |]);
      by apply (has_match_close_match allclose dataset sa Hrule).
  - intros new_idx sa Hread Hin Hsa Hno.
    destruct (Hfail new_idx sa Hread Hin Hsa) as (idx & actions & ? & ? & Hnm & ?).
    { by rewrite (has_match_close_match allclose dataset sa Hrule). }
    exists idx, actions. split_and!; try done.
    by rewrite <- (has_match_close_match allclose dataset actions Hrule).
Qed.

Lemma frame_integrity_requires_match_witness :
  ∃ idx actions, idx ∈ [0; 2 `div` 2; 2 - 1] ∧
    outcome (get_episode_actions Examples.small_perturbed idx) = inr actions ∧
    ¬ close_match Examples.small actions ∧
    fails_with (frame_integrity default_allclose Examples.small Examples.small_perturbed)
               (AssertionError (No_matching_data idx)).
Proof.
  eapply (proj2 (proj2 (proj2 (proj2 (frame_integrity_requires_match
            default_allclose Examples.small Examples.small_perturbed
            default_allclose_torch_rule))))
          0).
  - intros idx Hidx.
    repeat (apply elem_of_cons in Hidx as [-> | Hidx]; [by eexists |]).
    by apply elem_of_nil in Hidx.
  - left.
  - reflexivity.
  - rewrite <- (has_match_close_match default_allclose)
      by apply default_allclose_torch_rule.
    rewrite <- has_match_search. vm_compute. discriminate.
Defined.

(** A candidate episode with the action [1.000015] is matched by the
    reference episode with the action [1], although the two differ by more
    than 1e-5: the check does not require an absolute tolerance of 1e-5. *)
Lemma frame_integrity_relative_tolerance :
  ¬ (∀ dataset shuffled : LeRobotDataset,
       passes (frame_integrity default_allclose dataset shuffled) →
       ∀ new_idx, new_idx ∈ take 3 (check_indices shuffled) →
         ∃ shuffled_actions old_idx original_actions,
           outcome (get_episode_actions shuffled new_idx) = inr shuffled_actions ∧
           0 ≤ old_idx < total_episodes (meta dataset) ∧
           outcome (get_episode_actions dataset old_idx) = inr original_actions ∧
           shape shuffled_actions = shape original_actions ∧
           elementwise_close 0 atol shuffled_actions original_actions).
Proof.
  intros H.
  destruct (H (Examples.one_frame 1) (Examples.one_frame (1000015 # 1000000)))
    with (new_idx := 0) as (sa & old & oa & Hsa & Hold & Hoa & _ & Hclose).
  - vm_compute. reflexivity.
  - left.
  - change (total_episodes (meta (Examples.one_frame 1))) with 1 in Hold.
    assert (old = 0) as -> by lia.
    vm_compute in Hsa, Hoa. injection Hsa as <-. injection Hoa as <-.
    unfold elementwise_close in Hclose. simpl in Hclose.
    apply Forall_cons_1 in Hclose as [Hclose _]. vm_compute in Hclose.
    by apply Hclose.
Qed.

(** C10: the search over the reference episodes never raises.  A reference
    episode whose actions cannot be fetched, whatever the exception, is
    skipped and the search goes on with the remaining episodes; so once the
    candidate episode's own actions are fetched, its check either passes or
    raises the no-matching-data assertion, and no exception of the search
    leaves it. *)
Theorem search_skips_failing_reference
    (allclose : Q → Tensor → Tensor → M bool) (dataset : LeRobotDataset) :
  (∀ shuffled_actions old_idxs,
     ∃ found, outcome (find_match allclose dataset shuffled_actions old_idxs)
              = inr found) ∧
  (∀ shuffled_actions old_idx rest e,
     fails_with (get_episode_actions dataset old_idx) e →
     outcome (find_match allclose dataset shuffled_actions (old_idx :: rest)) =
     outcome (find_match allclose dataset shuffled_actions rest)) ∧
  (∀ shuffled new_idx shuffled_actions,
     outcome (get_episode_actions shuffled new_idx) = inr shuffled_actions →
     passes (check_episode allclose dataset shuffled new_idx) ∨
     fails_with (check_episode allclose dataset shuffled new_idx)
                (AssertionError (No_matching_data new_idx))).
Proof.
  split_and!.
  - intros sa olds.
    destruct (outcome_find_match allclose dataset sa olds) as (found & Hfound & _).
    eauto.
  - intros sa old rest e Hfail. rewrite outcome_find_match_cons.
    unfold matches. rewrite outcome_bind. unfold fails_with in Hfail.
    by rewrite Hfail.
  - intros shuffled new_idx sa Hsa.
    destruct (outcome_check_episode allclose dataset shuffled new_idx sa Hsa)
      as [[? _] | [? _]]; auto.
Qed.

Lemma search_skips_failing_reference_witness :
  outcome (find_match default_allclose Examples.flaky
             (Examples.vector [1 # 10; 0]%Q) (0 :: [1])) =
  outcome (find_match default_allclose Examples.flaky
             (Examples.vector [1 # 10; 0]%Q) [1]).
Proof.
  apply (proj1 (proj2 (search_skips_failing_reference default_allclose Examples.flaky))
               (Examples.vector [1 # 10; 0]%Q) 0 [1] DatasetAccessError).
  reflexivity.
Defined.

(** * Further properties of the two scripts *)

(** ** The distribution checks of [split_parquet_and_shuffle.py] *)

Lemma lookup_range (n : Z) (k : nat) :
  range n !! k = if decide (k < Z.to_nat n)%nat then Some (Z.of_nat k) else None.
Proof.
  unfold range, range2. rewrite list_lookup_fmap, Z.sub_0_r.
  case_decide as Hk.
  - rewrite lookup_seq_lt by done. simpl; f_equal; lia.
  - rewrite lookup_seq_ge by lia. done.
Qed.

Lemma length_range (n : Z) : length (range n) = Z.to_nat n.
Proof. unfold range, range2. by rewrite length_fmap, length_seq, Z.sub_0_r. Qed.

(** Reading the records at the ordinals of [range(n)] succeeds exactly when
    there are at least [n] records, and then reads the first [n]. *)
Lemma mapM_range_lookup {A} (l : list A) (n : Z) :
  mapM (λ i, l !! Z.to_nat i) (range n) =
  if decide (Z.to_nat n ≤ length l)%nat then Some (take (Z.to_nat n) l) else None.
Proof.
  case_decide as Hn.
  - apply mapM_Some_2, Forall2_same_length_lookup_2.
    + rewrite length_range, length_take. lia.
    + intros k i x Hi Hx. rewrite lookup_range in Hi.
      case_decide; [| done]. injection Hi as <-.
      rewrite Nat2Z.id. apply lookup_take_Some in Hx. tauto.
  - destruct (mapM _ _) as [k |] eqn:Hk; [| done]. exfalso.
    assert (Hsome : is_Some (mapM (λ i, l !! Z.to_nat i) (range n))) by eauto.
    apply mapM_is_Some_1 in Hsome. rewrite Forall_forall in Hsome.
    destruct (Hsome (Z.of_nat (length l))) as [x Hx].
    + apply elem_of_range. lia.
    + simpl in Hx. rewrite Nat2Z.id in Hx.
      apply lookup_lt_Some in Hx. lia.
Qed.

Lemma tally_lookup (keys : list (list string)) (c : gmap (list string) nat)
    (key : list string) :
  tally keys c !! key =
  if decide (count_occ tasks_eq_dec keys key = 0)%nat
  then c !! key
  else Some (count_occ tasks_eq_dec keys key
             + default 0 (c !! key))%nat.
Proof.
  revert c. induction keys as [| k keys IH]; intros c; [done |].
  cbn [tally foldl count_occ]. fold (tally keys (counter_incr k c)).
  rewrite IH. unfold counter_incr.
  destruct (tasks_eq_dec k key) as [-> | Hne].
  - rewrite lookup_insert_eq. simpl.
    repeat case_decide; try lia; f_equal; lia.
  - rewrite lookup_insert_ne by done. done.
Qed.

(** Two counters filled from empty are equal exactly when the two lists of
    keys are permutations of each other. *)
Lemma tally_eq_permutation (keys1 keys2 : list (list string)) :
  tally keys1 ∅ = tally keys2 ∅ ↔ keys1 ≡ₚ keys2.
Proof.
  rewrite (Permutation_count_occ tasks_eq_dec). split.
  - intros Heq key.
    assert (Hkey : tally keys1 ∅ !! key = tally keys2 ∅ !! key) by by rewrite Heq.
    rewrite !tally_lookup, !lookup_empty in Hkey. simpl in Hkey.
    repeat case_decide; simplify_eq; lia.
  - intros Hcount. apply map_eq. intros key.
    rewrite !tally_lookup, Hcount. done.
Qed.

Lemma outcome_count_tasks (dataset shuffled : LeRobotDataset) (ep_idxs : list Z)
    (counters : gmap (list string) nat * gmap (list string) nat) :
  (∀ i, i ∈ ep_idxs → 0 ≤ i) →
  outcome (count_tasks dataset shuffled ep_idxs counters) =
  match mapM (λ i, episodes (meta dataset) !! Z.to_nat i) ep_idxs,
        mapM (λ i, episodes (meta shuffled) !! Z.to_nat i) ep_idxs with
  | Some origs, Some shufs =>
      inr (tally (EpisodeRecord.tasks <$> origs) counters.1,
           tally (EpisodeRecord.tasks <$> shufs) counters.2)
  | _, _ => inl IndexError
  end.
Proof.
  revert counters. induction ep_idxs as [| i idxs IH]; intros counters Hpos.
  - by destruct counters.
  - cbn [count_tasks mapM].
    rewrite outcome_bind, outcome_getitem by (apply Hpos; left).
    destruct (episodes (meta dataset) !! Z.to_nat i) as [orig |]; [| done].
    rewrite outcome_bind, outcome_getitem by (apply Hpos; left).
    destruct (episodes (meta shuffled) !! Z.to_nat i) as [shuf |].
    2: { simpl. by destruct (mapM _ idxs). }
    rewrite IH by (intros j Hj; apply Hpos; by right). simpl.
    destruct (mapM _ idxs) as [origs |]; [| done]. simpl.
    destruct (mapM _ idxs) as [shufs |]; done.
Qed.

Lemma passes_task_distribution (dataset shuffled : LeRobotDataset) :
  let n := total_episodes (meta dataset) in
  passes (task_distribution dataset shuffled) ↔
  (Z.to_nat n ≤ length (episodes (meta dataset)))%nat ∧
  (Z.to_nat n ≤ length (episodes (meta shuffled)))%nat ∧
  EpisodeRecord.tasks <$> first_records dataset n
    ≡ₚ EpisodeRecord.tasks <$> first_records shuffled n.
Proof.
  intros n. unfold task_distribution. fold n. unfold passes.
  rewrite outcome_bind, outcome_count_tasks
    by (intros i Hi; apply elem_of_range in Hi; lia).
  rewrite !mapM_range_lookup. unfold first_records.
  destruct (decide (Z.to_nat n ≤ length (episodes (meta dataset)))%nat) as [H1 | H1];
    [| split; [done | tauto]].
  destruct (decide (Z.to_nat n ≤ length (episodes (meta shuffled)))%nat) as [H2 | H2];
    [| split; [done | tauto]].
  cbv beta iota. cbn [fst snd].
  rewrite outcome_bind, outcome_assert, outcome_print, <- tally_eq_permutation.
  case_bool_decide; split; try done; tauto.
Qed.

(** X1: the task distribution check passes exactly when both datasets have
    at least [total_episodes] (of the reference) episode records and the
    tasks tuples of the first [total_episodes] reference records are a
    permutation of those of the first [total_episodes] candidate records. *)
Theorem task_distribution_permutation (dataset shuffled : LeRobotDataset) :
  let n := total_episodes (meta dataset) in
  passes (task_distribution dataset shuffled) ↔
  (Z.to_nat n ≤ length (episodes (meta dataset)))%nat ∧
  (Z.to_nat n ≤ length (episodes (meta shuffled)))%nat ∧
  EpisodeRecord.tasks <$> first_records dataset n
    ≡ₚ EpisodeRecord.tasks <$> first_records shuffled n.
Proof. apply passes_task_distribution. Qed.

Lemma passes_sorted_lengths (dataset shuffled : LeRobotDataset) :
  (passes (sorted_lengths dataset shuffled) ↔
   EpisodeRecord.length <$> episodes (meta dataset)
     ≡ₚ EpisodeRecord.length <$> episodes (meta shuffled)) ∧
  (passes (sorted_lengths dataset shuffled) ∨
   fails_with (sorted_lengths dataset shuffled)
              (AssertionError Episode_lengths_sorted_mismatch)).
Proof.
  unfold sorted_lengths, passes, fails_with.
  rewrite outcome_bind, outcome_assert, outcome_print.
  set (l1 := EpisodeRecord.length <$> episodes (meta dataset)).
  set (l2 := EpisodeRecord.length <$> episodes (meta shuffled)).
  split; [| case_bool_decide; auto].
  case_bool_decide as Hsort.
  - split; [intros _ | done].
    rewrite <- (merge_sort_Permutation Z.le l1), Hsort.
    apply merge_sort_Permutation.
  - split; [done |]. intros Hperm. exfalso. apply Hsort.
    apply (StronglySorted_unique Z.le).
    + apply StronglySorted_merge_sort; apply _.
    + apply StronglySorted_merge_sort; apply _.
    + by rewrite !merge_sort_Permutation.
Qed.

(** X2: the sorted-lengths check passes exactly when the [length] values of
    all episode records of the reference are a permutation of those of the
    candidate, whatever [total_episodes] says; its only failure is its own
    assertion. *)
Theorem sorted_lengths_permutation (dataset shuffled : LeRobotDataset) :
  (passes (sorted_lengths dataset shuffled) ↔
   EpisodeRecord.length <$> episodes (meta dataset)
     ≡ₚ EpisodeRecord.length <$> episodes (meta shuffled)) ∧
  (passes (sorted_lengths dataset shuffled) ∨
   fails_with (sorted_lengths dataset shuffled)
              (AssertionError Episode_lengths_sorted_mismatch)).
Proof. apply passes_sorted_lengths. Qed.

(** X3: when the candidate's episode records carry the same (tasks, length)
    pairs as the reference's in some order, and the reference's
    [total_episodes] is its number of records, both distribution checks
    pass. *)
Theorem reordered_episodes_pass_distribution (dataset shuffled : LeRobotDataset) :
  total_episodes (meta dataset) = Z.of_nat (length (episodes (meta dataset))) →
  (λ ep, (EpisodeRecord.tasks ep, EpisodeRecord.length ep)) <$> episodes (meta shuffled)
    ≡ₚ (λ ep, (EpisodeRecord.tasks ep, EpisodeRecord.length ep))
         <$> episodes (meta dataset) →
  passes (task_distribution dataset shuffled) ∧
  passes (sorted_lengths dataset shuffled).
Proof.
  intros Htotal Hperm.
  assert (Hlen : length (episodes (meta shuffled)) = length (episodes (meta dataset))).
  { apply Permutation_length in Hperm. by rewrite !length_fmap in Hperm. }
  assert (Htasks : EpisodeRecord.tasks <$> episodes (meta dataset)
                   ≡ₚ EpisodeRecord.tasks <$> episodes (meta shuffled)).
  { symmetry. apply (fmap_Permutation fst) in Hperm.
    rewrite <- !list_fmap_compose in Hperm. exact Hperm. }
  assert (Hlens : EpisodeRecord.length <$> episodes (meta dataset)
                  ≡ₚ EpisodeRecord.length <$> episodes (meta shuffled)).
  { symmetry. apply (fmap_Permutation snd) in Hperm.
    rewrite <- !list_fmap_compose in Hperm. exact Hperm. }
  split.
  - apply passes_task_distribution. unfold first_records.
    rewrite Htotal, Nat2Z.id, Hlen. split_and!; [done | done |].
    by rewrite !take_ge by lia.
  - by apply passes_sorted_lengths.
Qed.

Lemma reordered_episodes_pass_distribution_witness :
  passes (task_distribution Examples.small Examples.small_swapped) ∧
  passes (sorted_lengths Examples.small Examples.small_swapped).
Proof.
  apply (reordered_episodes_pass_distribution Examples.small Examples.small_swapped).
  - reflexivity.
  - apply perm_swap.
Defined.

(** ** [get_episode_actions] and the candidate side of the search *)

Lemma length_range2 (start stop : Z) :
  length (range2 start stop) = Z.to_nat (stop - start).
Proof. unfold range2. by rewrite length_fmap, length_seq. Qed.

Lemma outcome_stack (ts : list Tensor) (t : Tensor) :
  outcome (stack ts) = inr t →
  ∃ u, head ts = Some u ∧ shape t = length ts :: shape u ∧
       Forall (λ v, shape v = shape u) ts ∧ data t = concat (data <$> ts).
Proof.
  unfold stack. destruct ts as [| u ts']; [done |].
  destruct (forallb _ _) eqn:Hall; [| done].
  intros [= <-]. exists u. split_and!; try done.
  apply Is_true_true, forallb_True in Hall. eapply Forall_impl; [exact Hall |].
  intros v Hv. simpl in Hv. by apply bool_decide_unpack in Hv.
Qed.

(** X4: an episode whose [dataset_to_index] does not exceed its
    [dataset_from_index] has no frame to stack: [get_episode_actions]
    raises the tensor library's error on it. *)
Theorem get_episode_actions_empty_episode (ds : LeRobotDataset) (ep_idx : Z)
    (ep : EpisodeRecord.t) :
  outcome (getitem (episodes (meta ds)) ep_idx) = inr ep →
  EpisodeRecord.dataset_to_index ep ≤ EpisodeRecord.dataset_from_index ep →
  fails_with (get_episode_actions ds ep_idx) RuntimeError.
Proof.
  intros Hep Hempty. unfold fails_with, get_episode_actions.
  rewrite outcome_bind, Hep.
  assert (Hnil : range2 (EpisodeRecord.dataset_from_index ep)
                   (Z.min (EpisodeRecord.dataset_from_index ep + 10)
                          (EpisodeRecord.dataset_to_index ep)) = []).
  { apply length_zero_iff_nil. rewrite length_range2. lia. }
  rewrite Hnil. reflexivity.
Qed.

(** X5: when [get_episode_actions] returns a tensor, the episode has at
    least one frame and the tensor's leading dimension is the smaller of 10
    and the episode's number of frames; the remaining dimensions are those
    of the frames' [action] tensors. *)
Theorem get_episode_actions_shape (ds : LeRobotDataset) (ep_idx : Z) (t : Tensor) :
  outcome (get_episode_actions ds ep_idx) = inr t →
  ∃ ep frame,
    outcome (getitem (episodes (meta ds)) ep_idx) = inr ep ∧
    outcome (frame_at ds (EpisodeRecord.dataset_from_index ep)) = inr frame ∧
    let frames := EpisodeRecord.dataset_to_index ep
                  - EpisodeRecord.dataset_from_index ep in
    1 ≤ frames ∧
    shape t = Z.to_nat (Z.min 10 frames) :: shape (action frame).
Proof.
  intros Ht. apply get_episode_actions_first_ten in Ht
    as (ep & frames & Hep & Hframes & _ & Hstack).
  apply outcome_stack in Hstack as (u & Hhead & Hshape & _ & _).
  pose proof (Forall2_length _ _ _ Hframes) as Hlen.
  rewrite length_range2 in Hlen.
  destruct frames as [| frame frames']; [done |].
  injection Hhead as <-.
  exists ep, frame. split; [done |]. simpl in Hlen.
  split.
  { assert (Hfirst : range2 (EpisodeRecord.dataset_from_index ep)
                       (Z.min (EpisodeRecord.dataset_from_index ep + 10)
                              (EpisodeRecord.dataset_to_index ep)) !! 0%nat
                     = Some (EpisodeRecord.dataset_from_index ep)).
    { unfold range2. rewrite list_lookup_fmap, lookup_seq_lt by lia.
      simpl. f_equal. lia. }
    exact (Forall2_lookup_lr _ _ _ 0%nat _ _ Hframes Hfirst eq_refl). }
  simpl. split; [lia |].
  rewrite Hshape, length_fmap. simpl. f_equal. lia.
Qed.

Lemma get_episode_actions_shape_witness :
  ∃ ep frame,
    outcome (getitem (episodes (meta Examples.small)) 0) = inr ep ∧
    outcome (frame_at Examples.small (EpisodeRecord.dataset_from_index ep))
      = inr frame ∧
    let frames := EpisodeRecord.dataset_to_index ep
                  - EpisodeRecord.dataset_from_index ep in
    1 ≤ frames ∧
    shape Examples.small_first_actions
      = Z.to_nat (Z.min 10 frames) :: shape (action frame).
Proof.
  apply (get_episode_actions_shape Examples.small 0 Examples.small_first_actions).
  reflexivity.
Defined.

Lemma get_episode_actions_empty_episode_witness :
  fails_with (get_episode_actions
                (Examples.in_memory
                   [Examples.episode 0 ["pick"] 0 (0, 0) (0, 0) (0, 0)] 1 [])
                0)
             RuntimeError.
Proof.
  eapply (get_episode_actions_empty_episode _ 0).
  - reflexivity.
  - simpl. lia.
Defined.

(** X6: an exception raised while fetching the actions of the candidate's
    episode 0, the first one tested, is not caught: the frame integrity
    check ends with it. *)
Theorem frame_integrity_candidate_error
    (allclose : Q → Tensor → Tensor → M bool) (dataset shuffled : LeRobotDataset)
    (e : exception) :
  fails_with (get_episode_actions shuffled 0) e →
  fails_with (frame_integrity allclose dataset shuffled) e.
Proof.
  intros He. unfold frame_integrity. apply fails_then_print.
  change (take 3 (check_indices shuffled))
    with (0 :: [total_episodes (meta shuffled) `div` 2;
                total_episodes (meta shuffled) - 1]).
  cbn [for_]. apply fails_seq. left.
  unfold fails_with, check_episode in *. by rewrite outcome_bind, He.
Qed.

Lemma frame_integrity_candidate_error_witness :
  fails_with (frame_integrity default_allclose Examples.small Examples.flaky)
             DatasetAccessError.
Proof.
  apply (frame_integrity_candidate_error default_allclose Examples.small
           Examples.flaky DatasetAccessError).
  reflexivity.
Defined.

(** ** Edge cases of the shared checks *)

(** X7: on a candidate without video keys the video decode check fetches no
    frame and passes, while the alignment check raises [IndexError] at
    [video_keys[0]] before it looks at any episode. *)
Theorem no_video_keys (candidate : LeRobotDataset) :
  video_keys (meta candidate) = [] →
  video_frames candidate = print Video_frames_decode_correctly ∧
  file_alignment candidate = raise IndexError.
Proof.
  intros Hkeys. unfold video_frames, file_alignment. rewrite Hkeys. done.
Qed.

Lemma no_video_keys_witness :
  video_frames (Examples.small_with_keys []) = print Video_frames_decode_correctly ∧
  file_alignment (Examples.small_with_keys []) = raise IndexError.
Proof. apply (no_video_keys (Examples.small_with_keys [])). reflexivity. Defined.

(** X8: the metadata check reports the first field that differs, in the
    order episodes, frames, tasks, fps: each of its four assertions is
    raised exactly when its field differs and the fields before it agree. *)
Theorem metadata_counts_first_difference (dataset candidate : LeRobotDataset) :
  let differs (field : DatasetMeta → Z) := field (meta candidate) ≠ field (meta dataset) in
  let agrees (field : DatasetMeta → Z) := field (meta candidate) = field (meta dataset) in
  (fails_with (metadata_counts dataset candidate) (AssertionError Episode_count_mismatch)
   ↔ differs total_episodes) ∧
  (fails_with (metadata_counts dataset candidate) (AssertionError Frame_count_mismatch)
   ↔ agrees total_episodes ∧ differs total_frames) ∧
  (fails_with (metadata_counts dataset candidate) (AssertionError Task_count_mismatch)
   ↔ agrees total_episodes ∧ agrees total_frames ∧ differs total_tasks) ∧
  (fails_with (metadata_counts dataset candidate) (AssertionError FPS_mismatch)
   ↔ agrees total_episodes ∧ agrees total_frames ∧ agrees total_tasks ∧ differs fps).
Proof.
  intros differs agrees. unfold differs, agrees, metadata_counts, fails_with.
  rewrite !outcome_bind, !outcome_assert, outcome_print.
  repeat case_bool_decide; split_and!; split; intros; try done; try tauto;
    destruct_and?; done.
Qed.

Lemma passes_validations
    (allclose : Q → Tensor → Tensor → M bool) (dataset candidate : LeRobotDataset) :
  (passes (split_parquet_validation allclose dataset candidate) ↔
   ∀ s, s ∈ split_parquet_stages allclose dataset candidate → passes s) ∧
  (passes (split_parquet_and_shuffle_validation allclose dataset candidate) ↔
   ∀ s, s ∈ split_parquet_and_shuffle_stages allclose dataset candidate → passes s).
Proof.
  unfold split_parquet_validation, split_parquet_and_shuffle_validation.
  by rewrite !passes_then_print, !passes_run.
Qed.

(** X9: the validation section of each script ends without an exception
    exactly when every one of its checks passes: six checks for
    [split_parquet.py], seven for [split_parquet_and_shuffle.py]. *)
Theorem validations_pass_iff_all_checks
    (allclose : Q → Tensor → Tensor → M bool) (dataset candidate : LeRobotDataset) :
  (passes (split_parquet_validation allclose dataset candidate) ↔
   passes (metadata_counts dataset candidate) ∧
   passes (episode_lengths dataset candidate) ∧
   passes (episode_tasks dataset candidate) ∧
   passes (sample_frames allclose dataset candidate) ∧
   passes (video_frames candidate) ∧
   passes (file_alignment candidate)) ∧
  (passes (split_parquet_and_shuffle_validation allclose dataset candidate) ↔
   passes (metadata_counts dataset candidate) ∧
   passes (task_distribution dataset candidate) ∧
   passes (sorted_lengths dataset candidate) ∧
   passes (frame_integrity allclose dataset candidate) ∧
   passes (video_frames candidate) ∧
   passes (file_alignment candidate) ∧
   passes (order_changed dataset candidate)).
Proof.
  destruct (passes_validations allclose dataset candidate) as [-> ->].
  unfold split_parquet_stages, split_parquet_and_shuffle_stages.
  split; (split; [intros H; split_and!; apply H; set_solver |]).
  - intros (? & ? & ? & ? & ? & ?) s Hs. set_unfold in Hs. naive_solver.
  - intros (? & ? & ? & ? & ? & ? & ?) s Hs. set_unfold in Hs. naive_solver.
Qed.

Lemma outcome_order_changed (dataset shuffled : LeRobotDataset)
    (o s : list (list string)) :
  5 ≤ total_episodes (meta dataset) →
  outcome (first_tasks dataset (Z.min 10 (total_episodes (meta dataset)))) = inr o →
  outcome (first_tasks shuffled (Z.min 10 (total_episodes (meta dataset)))) = inr s →
  outcome (order_changed dataset shuffled) =
  if bool_decide (1 < size (list_to_set o : gset (list string)))%nat
  then if bool_decide (o ≠ s) then inr tt
       else inl (AssertionError Episodes_not_shuffled)
  else inr tt.
Proof.
  intros Hfive Ho Hs. unfold order_changed.
  rewrite bool_decide_eq_true_2 by done.
  rewrite outcome_bind, Ho, outcome_bind, Hs.
  case_bool_decide; [| done].
  rewrite outcome_bind, outcome_assert. by case_bool_decide.
Qed.

(** X10: a reference with at least 5 episodes whose first
    [min(10, total_episodes)] episodes carry two different tasks tuples is
    never accepted as its own shuffle: the order-change check raises, so the
    shuffled validation of the dataset against itself does not pass. *)
Theorem shuffle_validation_rejects_identity
    (allclose : Q → Tensor → Tensor → M bool) (D : LeRobotDataset)
    (o : list (list string)) :
  5 ≤ total_episodes (meta D) →
  outcome (first_tasks D (Z.min 10 (total_episodes (meta D)))) = inr o →
  (∃ x y, x ∈ o ∧ y ∈ o ∧ x ≠ y) →
  fails_with (order_changed D D) (AssertionError Episodes_not_shuffled) ∧
  ¬ passes (split_parquet_and_shuffle_validation allclose D D).
Proof.
  intros Hfive Ho Hdistinct.
  assert (Hfail : fails_with (order_changed D D)
                             (AssertionError Episodes_not_shuffled)).
  { unfold fails_with. rewrite (outcome_order_changed D D o o) by done.
    rewrite bool_decide_eq_true_2 by by apply two_distinct_elements.
    rewrite bool_decide_eq_false_2 by tauto. done. }
  split; [done |]. intros Hpass.
  pose proof (proj1 (proj2 (passes_validations allclose D D)) Hpass) as Hall.
  assert (Hin : order_changed D D ∈ split_parquet_and_shuffle_stages allclose D D)
    by (unfold split_parquet_and_shuffle_stages; set_solver).
  specialize (Hall _ Hin). unfold passes, fails_with in *. congruence.
Qed.

Lemma shuffle_validation_rejects_identity_witness :
  fails_with (order_changed Examples.six_alternating Examples.six_alternating)
             (AssertionError Episodes_not_shuffled) ∧
  ¬ passes (split_parquet_and_shuffle_validation default_allclose
              Examples.six_alternating Examples.six_alternating).
Proof.
  apply (shuffle_validation_rejects_identity default_allclose Examples.six_alternating
           [["pick"]; ["place"]; ["pick"]; ["place"]; ["pick"]; ["place"]]).
  - vm_compute. discriminate.
  - reflexivity.
  - exists ["pick"], ["place"]. split_and!; [left | right; left | discriminate].
Defined.

(** X11: the search stops at the first reference episode that matches: the
    episodes listed after it are not fetched, so neither what they would
    print nor what they would raise reaches the result. *)
Theorem find_match_stops_at_first_match
    (allclose : Q → Tensor → Tensor → M bool) (dataset : LeRobotDataset)
    (shuffled_actions : Tensor) (pre post : list Z) (old_idx : Z) :
  outcome (matches allclose dataset shuffled_actions old_idx) = inr true →
  find_match allclose dataset shuffled_actions (pre ++ old_idx :: post) =
  find_match allclose dataset shuffled_actions (pre ++ [old_idx]).
Proof.
  intros Hmatch. induction pre as [| p pre IH].
  - cbn [app find_match].
    destruct (matches allclose dataset shuffled_actions old_idx) as [out r].
    unfold outcome in Hmatch; simpl in Hmatch; subst r. reflexivity.
  - cbn [app find_match]. rewrite IH. reflexivity.
Qed.

Lemma find_match_stops_at_first_match_witness :
  find_match default_allclose Examples.small Examples.small_first_actions
             ([] ++ 0 :: [1; 7]) =
  find_match default_allclose Examples.small Examples.small_first_actions
             ([] ++ [0]).
Proof.
  apply (find_match_stops_at_first_match default_allclose Examples.small
           Examples.small_first_actions [] [1; 7] 0).
  vm_compute. reflexivity.
Defined.

(** ** Bounds of the sampled positions *)

Lemma quartiles_increasing (n : Z) :
  5 ≤ n → 0 < n `div` 4 < n `div` 2 ∧ n `div` 2 < (3 * n) `div` 4 < n - 1.
Proof.
  intros Hn.
  pose proof (Z.div_mod n 4 ltac:(lia)). pose proof (Z.mod_pos_bound n 4 ltac:(lia)).
  pose proof (Z.div_mod n 2 ltac:(lia)). pose proof (Z.mod_pos_bound n 2 ltac:(lia)).
  pose proof (Z.div_mod (3 * n) 4 ltac:(lia)).
  pose proof (Z.mod_pos_bound (3 * n) 4 ltac:(lia)).
  lia.
Qed.

Lemma quartiles_in_range (n : Z) :
  1 ≤ n → 0 ≤ n `div` 4 < n ∧ 0 ≤ n `div` 2 < n ∧ 0 ≤ (3 * n) `div` 4 < n.
Proof.
  intros Hn.
  pose proof (Z.div_mod n 4 ltac:(lia)). pose proof (Z.mod_pos_bound n 4 ltac:(lia)).
  pose proof (Z.div_mod n 2 ltac:(lia)). pose proof (Z.mod_pos_bound n 2 ltac:(lia)).
  pose proof (Z.div_mod (3 * n) 4 ltac:(lia)).
  pose proof (Z.mod_pos_bound (3 * n) 4 ltac:(lia)).
  lia.
Qed.

(** X12: on a dataset with at least one frame every sampled frame index of
    [split_parquet.py] lies in [0, total_frames); from 5 frames on the five
    indices are strictly increasing, hence pairwise different. *)
Theorem sample_indices_bounds (dataset : LeRobotDataset) :
  let n := total_frames (meta dataset) in
  (1 ≤ n → Forall (λ idx, 0 ≤ idx < n) (take num_samples (sample_indices dataset))) ∧
  (5 ≤ n → StronglySorted Z.lt (take num_samples (sample_indices dataset)) ∧
           NoDup (take num_samples (sample_indices dataset))).
Proof.
  intros n.
  change (take num_samples (sample_indices dataset))
    with [0; n `div` 4; n `div` 2; (3 * n) `div` 4; n - 1].
  split.
  - intros Hn. pose proof (quartiles_in_range n Hn).
    repeat (apply Forall_cons; split; [lia |]). apply Forall_nil. done.
  - intros Hn. pose proof (quartiles_increasing n Hn).
    assert (Hsorted : StronglySorted Z.lt
              [0; n `div` 4; n `div` 2; (3 * n) `div` 4; n - 1]).
    { repeat (apply SSorted_cons;
              [| repeat (apply Forall_cons; split; [lia |]); by apply Forall_nil]).
      apply SSorted_nil. }
    split; [done |].
    repeat (apply NoDup_cons; split; [set_unfold; lia |]). apply NoDup_nil. done.
Qed.

Lemma sample_indices_bounds_witness :
  StronglySorted Z.lt (take num_samples (sample_indices (Examples.eleven 1))) ∧
  NoDup (take num_samples (sample_indices (Examples.eleven 1))).
Proof.
  apply (proj2 (sample_indices_bounds (Examples.eleven 1))).
  vm_compute. discriminate.
Defined.

(** X13: on a candidate with at least one episode the three tested episode
    ordinals of [split_parquet_and_shuffle.py] lie in [0, total_episodes);
    from 3 episodes on they are strictly increasing, hence pairwise
    different. *)
Theorem check_indices_bounds (shuffled : LeRobotDataset) :
  let n := total_episodes (meta shuffled) in
  (1 ≤ n → Forall (λ idx, 0 ≤ idx < n) (take 3 (check_indices shuffled))) ∧
  (3 ≤ n → StronglySorted Z.lt (take 3 (check_indices shuffled)) ∧
           NoDup (take 3 (check_indices shuffled))).
Proof.
  intros n.
  change (take 3 (check_indices shuffled)) with [0; n `div` 2; n - 1].
  assert (Hdiv : n = 2 * (n `div` 2) + n `mod` 2) by (apply Z.div_mod; lia).
  pose proof (Z.mod_pos_bound n 2 ltac:(lia)) as Hmod.
  split.
  - intros Hn. repeat (apply Forall_cons; split; [lia |]). apply Forall_nil. done.
  - intros Hn.
    assert (Hsorted : StronglySorted Z.lt [0; n `div` 2; n - 1]).
    { repeat (apply SSorted_cons;
              [| repeat (apply Forall_cons; split; [lia |]); by apply Forall_nil]).
      apply SSorted_nil. }
    split; [done |].
    repeat (apply NoDup_cons; split; [set_unfold; lia |]). apply NoDup_nil. done.
Qed.

Lemma check_indices_bounds_witness :
  StronglySorted Z.lt (take 3 (check_indices Examples.misaligned)) ∧
  NoDup (take 3 (check_indices Examples.misaligned)).
Proof.
  apply (proj2 (check_indices_bounds Examples.misaligned)).
  vm_compute. discriminate.
Defined.

(** ** Exceptions other than assertions *)

Lemma range_middle (n i : Z) :
  0 ≤ i < n →
  range n = take (Z.to_nat i) (range n) ++ i :: drop (S (Z.to_nat i)) (range n).
Proof.
  intros Hi. symmetry. apply take_drop_middle.
  rewrite lookup_range. rewrite decide_True by lia. f_equal. lia.
Qed.

Lemma elem_of_take_range (n : Z) (k : nat) (y : Z) :
  y ∈ take k (range n) → 0 ≤ y < Z.of_nat k.
Proof.
  intros Hy. apply list_elem_of_lookup in Hy as [j Hj].
  apply lookup_take_Some in Hj as [Hj Hlt].
  rewrite lookup_range in Hj. case_decide; [| done].
  injection Hj as <-. lia.
Qed.

(** X14: when the episode records agree in [length] below an ordinal that
    the episode loop still visits, and one of the two datasets has no record
    at that ordinal, the episode-length check ends with [IndexError], not
    with an assertion. *)
Theorem episode_lengths_missing_record (dataset aligned : LeRobotDataset) (i : Z) :
  0 ≤ i < Z.min 10 (total_episodes (meta dataset)) →
  (∀ j, 0 ≤ j < i →
     ∃ orig al, records_at dataset aligned j orig al ∧
                EpisodeRecord.length orig = EpisodeRecord.length al) →
  episodes (meta dataset) !! Z.to_nat i = None ∨
  episodes (meta aligned) !! Z.to_nat i = None →
  fails_with (episode_lengths dataset aligned) IndexError.
Proof.
  intros Hi Hbelow Hmissing. unfold episode_lengths.
  apply fails_then_print, fails_for.
  eexists _, i, _. split; [by apply range_middle |]. split.
  - intros j Hj. apply elem_of_take_range in Hj.
    destruct (Hbelow j ltac:(lia)) as (orig & al & [Ho Ha] & Hlen).
    unfold passes. rewrite outcome_length_body by lia.
    rewrite Ho, Ha. by rewrite bool_decide_eq_true_2.
  - unfold fails_with. rewrite outcome_length_body by lia.
    destruct Hmissing as [-> | ->]; [done |].
    by destruct (episodes (meta dataset) !! Z.to_nat i).
Qed.

Lemma episode_lengths_missing_record_witness :
  fails_with (episode_lengths Examples.small Examples.small_truncated) IndexError.
Proof.
  apply (episode_lengths_missing_record Examples.small Examples.small_truncated 1).
  - vm_compute. split; [discriminate | reflexivity].
  - intros j Hj. assert (j = 0) as -> by lia.
    eexists _, _. split; [split; reflexivity | reflexivity].
  - right. reflexivity.
Defined.

(** X15: what the video decode check raises at the first video key, before
    any other key is looked at: the exception of [candidate[0]] when the
    frame cannot be fetched, [KeyError] when the frame has no entry for the
    key, the invalid-shape assertion when the image does not have three
    dimensions with 3 channels first (whatever its pixel values), and the
    tensor library's error when the image has that shape but no element. *)
Theorem video_frames_first_key (candidate : LeRobotDataset)
    (video_key : string) (rest : list string) :
  video_keys (meta candidate) = video_key :: rest →
  (∀ e, fails_with (frame_at candidate 0) e → fails_with (video_frames candidate) e) ∧
  (∀ frame, outcome (frame_at candidate 0) = inr frame →
     images frame !! video_key = None →
     fails_with (video_frames candidate) (KeyError video_key)) ∧
  (∀ img, decoded candidate video_key img → ¬ three_channels_first img →
     fails_with (video_frames candidate)
                (AssertionError (Video_invalid_shape video_key))) ∧
  (∀ img, decoded candidate video_key img → three_channels_first img →
     data img = [] →
     fails_with (video_frames candidate) RuntimeError).
Proof.
  intros Hkeys.
  assert (Hfirst : ∀ e, fails_with (video_frame candidate video_key) e →
                        fails_with (video_frames candidate) e).
  { intros e He. unfold video_frames. rewrite Hkeys.
    apply fails_then_print. cbn [for_]. apply fails_seq. by left. }
  split_and!.
  - intros e He. apply Hfirst. unfold fails_with, video_frame in *.
    by rewrite outcome_bind, He.
  - intros frame Hframe Hnone. apply Hfirst. unfold fails_with, video_frame.
    by rewrite outcome_bind, Hframe, outcome_bind, outcome_dict_getitem, Hnone.
  - intros img Hdec Hshape. apply Hfirst. unfold fails_with.
    rewrite (outcome_video_frame _ _ img) by done.
    destruct (valid_shape img) eqn:Hvalid; [| done].
    by apply valid_shape_true in Hvalid.
  - intros img Hdec Hshape Hempty. apply Hfirst. unfold fails_with.
    rewrite (outcome_video_frame _ _ img) by done.
    apply valid_shape_true in Hshape. rewrite Hshape.
    pose proof (outcome_valid_pixel_range img) as Hrange.
    rewrite Hempty in Hrange. by rewrite Hrange.
Qed.

Lemma video_frames_first_key_witness :
  fails_with (video_frames (Examples.small_with_keys ["wrist"])) (KeyError "wrist").
Proof.
  eapply (proj1 (proj2 (video_frames_first_key
                          (Examples.small_with_keys ["wrist"]) "wrist" [] eq_refl))).
  - reflexivity.
  - reflexivity.
Defined.

(** X16: the sampled frame comparison fetches the reference frame 0 first
    and the candidate frame 0 next; an exception of either fetch ends the
    check, the reference's taking precedence. *)
Theorem sample_frames_fetch_error
    (allclose : Q → Tensor → Tensor → M bool) (dataset aligned : LeRobotDataset)
    (e : exception) :
  (fails_with (frame_at dataset 0) e →
   fails_with (sample_frames allclose dataset aligned) e) ∧
  (∀ orig_frame, outcome (frame_at dataset 0) = inr orig_frame →
     fails_with (frame_at aligned 0) e →
     fails_with (sample_frames allclose dataset aligned) e).
Proof.
  assert (Hfirst : fails_with (sample_frame allclose dataset aligned 0) e →
                   fails_with (sample_frames allclose dataset aligned) e).
  { intros He. unfold sample_frames. apply fails_then_print.
    change (take num_samples (sample_indices dataset))
      with (0 :: [total_frames (meta dataset) `div` 4;
                  total_frames (meta dataset) `div` 2;
                  (3 * total_frames (meta dataset)) `div` 4;
                  total_frames (meta dataset) - 1]).
    cbn [for_]. apply fails_seq. by left. }
  split.
  - intros He. apply Hfirst. unfold fails_with, sample_frame in *.
    by rewrite outcome_bind, He.
  - intros orig_frame Horig He. apply Hfirst. unfold fails_with, sample_frame in *.
    by rewrite outcome_bind, Horig, outcome_bind, He.
Qed.

Lemma sample_frames_fetch_error_witness :
  fails_with (sample_frames default_allclose Examples.flaky Examples.small)
             DatasetAccessError.
Proof.
  apply (proj1 (sample_frames_fetch_error default_allclose Examples.flaky
                  Examples.small DatasetAccessError)).
  reflexivity.
Defined.

(** X17: when the candidate has a first video key and at least one episode
    and its first episode record lacks an index entry of that key, the
    alignment check ends with [KeyError] for the missing entry:
    [videos/<key>/chunk_index] when the chunk index is missing,
    [videos/<key>/file_index] when only the file index is. *)
Theorem file_alignment_missing_video_entry (candidate : LeRobotDataset)
    (first_video_key : string) (ep : EpisodeRecord.t) :
  video_keys (meta candidate) !! 0%nat = Some first_video_key →
  1 ≤ total_episodes (meta candidate) →
  episodes (meta candidate) !! 0%nat = Some ep →
  (EpisodeRecord.videos_chunk_index ep !! first_video_key = None →
   fails_with (file_alignment candidate)
              (KeyError ("videos/" +:+ first_video_key +:+ "/chunk_index"))) ∧
  (is_Some (EpisodeRecord.videos_chunk_index ep !! first_video_key) →
   EpisodeRecord.videos_file_index ep !! first_video_key = None →
   fails_with (file_alignment candidate)
              (KeyError ("videos/" +:+ first_video_key +:+ "/file_index"))).
Proof.
  intros Hkey Htotal Hep.
  assert (Hfirst : video_pair ep first_video_key = None →
            fails_with (file_alignment candidate)
                       (KeyError (missing_video_entry ep first_video_key))).
  { intros Hpair. unfold fails_with.
    rewrite (outcome_file_alignment _ first_video_key) by done.
    apply fails_for. eexists [], 0, _. split; [| split].
    - apply (range_middle _ 0). lia.
    - intros j Hj. by apply elem_of_nil in Hj.
    - unfold fails_with. rewrite outcome_file_alignment_episode by done.
      change (Z.to_nat 0) with 0%nat. by rewrite Hep, Hpair. }
  unfold video_pair, missing_video_entry in Hfirst. split.
  - intros Hchunk. rewrite Hchunk in Hfirst. by apply Hfirst.
  - intros [vc Hchunk] Hfile. rewrite Hchunk, Hfile in Hfirst. by apply Hfirst.
Qed.

Lemma file_alignment_missing_video_entry_witness :
  fails_with (file_alignment (Examples.small_with_keys ["wrist"]))
             (KeyError "videos/wrist/chunk_index").
Proof.
  apply (proj1 (file_alignment_missing_video_entry
                  (Examples.small_with_keys ["wrist"]) "wrist"
                  (Examples.episode 2 ["pick"] 0 (0, 0) (0, 0) (0, 0))
                  eq_refl ltac:(vm_compute; discriminate) eq_refl)).
  reflexivity.
Defined.

(** X18: against a reference whose [total_episodes] is zero (or less) the
    search scans nothing: as soon as the actions of the candidate's episode
    0 can be fetched, the frame integrity check raises the no-matching-data
    assertion for episode 0. *)
Theorem frame_integrity_empty_reference
    (allclose : Q → Tensor → Tensor → M bool) (dataset shuffled : LeRobotDataset)
    (shuffled_actions : Tensor) :
  total_episodes (meta dataset) ≤ 0 →
  outcome (get_episode_actions shuffled 0) = inr shuffled_actions →
  fails_with (frame_integrity allclose dataset shuffled)
             (AssertionError (No_matching_data 0)).
Proof.
  intros Hempty Hsa. unfold frame_integrity. apply fails_then_print.
  change (take 3 (check_indices shuffled))
    with (0 :: [total_episodes (meta shuffled) `div` 2;
                total_episodes (meta shuffled) - 1]).
  cbn [for_]. apply fails_seq. left.
  unfold fails_with, check_episode. rewrite outcome_bind, Hsa.
  assert (Hnil : range (total_episodes (meta dataset)) = []).
  { apply length_zero_iff_nil. rewrite length_range. lia. }
  rewrite Hnil. reflexivity.
Qed.

Lemma frame_integrity_empty_reference_witness :
  fails_with (frame_integrity default_allclose (Examples.in_memory [] 0 [])
                              Examples.small)
             (AssertionError (No_matching_data 0)).
Proof.
  apply (frame_integrity_empty_reference default_allclose
           (Examples.in_memory [] 0 []) Examples.small
           Examples.small_first_actions).
  - simpl. lia.
  - reflexivity.
Defined.
